(** * NASA space explorer: gallery renderer, media resolver and modal controller

    A shallow embedding of [src/js/script.js].  The page state (trigger
    control, gallery container, the singleton modal, the focus bookkeeping)
    is an explicit record that every handler threads through; JavaScript
    exceptions are a completion type; the strings are sequences of code
    units with the two [String.prototype] methods the script calls.  A
    card's [innerHTML] is the string its template literal evaluates to; what
    the browser's parser builds from it is modelled on the fragment of HTML
    the templates produce when the spliced texts hold no markup. *)

From stdpp Require Import gmap strings list.
From Equations Require Import Equations.

Set Warnings "-register-all".

(** ** JavaScript strings: [includes] and [split] *)

Module JsString.

(** [strip_prefix p s] is [Some rest] when [s = p ++ rest]: the matcher that
    [indexOf] and [split] run at one position. *)
Fixpoint strip_prefix (p s : string) : option string :=
  match p, s with
  | EmptyString, _ => Some s
  | String a p', String b s' =>
      if Ascii.eqb a b then strip_prefix p' s' else None
  | String _ _, EmptyString => None
  end.

(** [cut sep s] looks for the leftmost occurrence of [sep] in [s] and returns
    what stands before it and what stands after it. *)
Fixpoint cut (sep s : string) : option (string * string) :=
  match strip_prefix sep s with
  | Some rest => Some (EmptyString, rest)
  | None =>
      match s with
      | EmptyString => None
      | String c s' =>
          match cut sep s' with
          | Some (b, a) => Some (String c b, a)
          | None => None
          end
      end
  end.

(** [s.includes(sep)] *)
Definition includes (s sep : string) : bool :=
  match cut sep s with Some _ => true | None => false end.

(** The code units of a string, one string each: [s.split('')]. *)
Fixpoint units (s : string) : list string :=
  match s with
  | EmptyString => []
  | String c s' => String c EmptyString :: units s'
  end.

Lemma strip_prefix_length p s rest :
  strip_prefix p s = Some rest -> String.length s = String.length p + String.length rest.
Proof.
  revert s; induction p as [|a p IH]; intros s; simpl.
  - intros [= <-]. reflexivity.
  - destruct s as [|b s]; [congruence|].
    destruct (Ascii.eqb a b); [|congruence].
    intros H. simpl. rewrite (IH _ H). reflexivity.
Qed.

Lemma cut_length sep s b a :
  cut sep s = Some (b, a) ->
  String.length s = String.length b + String.length sep + String.length a.
Proof.
  revert b a; induction s as [|c s IH]; intros b a; simpl.
  - destruct (strip_prefix sep "") as [rest|] eqn:E; [|congruence].
    intros [= <- <-]. apply strip_prefix_length in E. simpl in *. lia.
  - destruct (strip_prefix sep (String c s)) as [rest|] eqn:E.
    + intros [= <- <-]. apply strip_prefix_length in E. simpl in *. lia.
    + destruct (cut sep s) as [[b' a']|] eqn:E'; [|congruence].
      intros [= <- <-]. specialize (IH _ _ eq_refl). simpl. lia.
Qed.

(** Matching on a value while keeping the equation that names it. *)
Definition inspect {A} (a : A) : {b : A | a = b} := exist _ a eq_refl.

(** [s.split(sep)]: the pieces of [s] between the successive leftmost,
    non-overlapping occurrences of [sep]; with an empty separator, the code
    units of [s]. *)
Equations? split_on (sep s : string) : list string by wf (String.length s) lt :=
  split_on EmptyString s := units s;
  split_on sep s with inspect (cut sep s) => {
    | exist _ (Some (b, a)) E := b :: split_on sep a;
    | exist _ None _ := [s] }.
Proof.
  apply cut_length in E. simpl in E. lia.
Qed.

Definition split (s sep : string) : list string := split_on sep s.

(** What stands in front of the first occurrence of [sep], or all of [s]. *)
Definition first_piece (s sep : string) : string :=
  match cut sep s with Some (b, _) => b | None => s end.

End JsString.


(** ** Values, exceptions and property reads *)

(** What [throw] can carry in this script. [NetworkError n] stands for
    [new Error(`Network error: ${n}`)]. *)
Inductive exn :=
| TypeError
| SyntaxError
| NetworkError (status : nat).

(** The outcome of running a piece of JavaScript. *)
Inductive completion (A : Type) :=
| Normal (a : A)
| Throw (e : exn).
Arguments Normal {A} a.
Arguments Throw {A} e.

(** One feed entry: a JSON object read as a finite map from field names to
    text.  A field that is absent (or [null]) has no binding. *)
Abbreviation Item := (gmap string string).

(** A JavaScript value as the feed can deliver it. *)
Inductive value :=
| VUndefined
| VNull
| VBool (b : bool)
| VNumber (literal : string)
| VString (s : string)
| VObject (o : Item)
| VArray (elems : list value).

(** [Array.isArray(v)] *)
Definition isArray (v : value) : bool :=
  match v with VArray _ => true | _ => false end.

(** The elements of an array, for [v.length] and [v.forEach]. *)
Definition elements (v : value) : list value :=
  match v with VArray l => l | _ => [] end.

(** Reading a property of [v] throws on [null] and [undefined]; on a
    primitive or an array, none of the feed's field names is defined. *)
Definition fields (v : value) : completion Item :=
  match v with
  | VUndefined | VNull => Throw TypeError
  | VObject o => Normal o
  | VBool _ | VNumber _ | VString _ | VArray _ => Normal ∅
  end.

(** Truthiness of a field: present and not the empty string. *)
Definition truthy (v : option string) : bool :=
  match v with
  | Some (String _ _) => true
  | Some EmptyString | None => false
  end.

(** [v || d] for a field [v] and a text default [d]. *)
Definition or_else (v : option string) (d : string) : string :=
  match v with
  | Some (String c s) => String c s
  | Some EmptyString | None => d
  end.

(** [s || d] for two texts. *)
Definition or_text (s d : string) : string :=
  match s with
  | String _ _ => s
  | EmptyString => d
  end.

(** [item.media_type === t] *)
Definition media_type_is (item : Item) (t : string) : bool :=
  bool_decide (item !! "media_type" = Some t).

(** ** Gallery renderer *)

Module Gallery.

(** DOM content parsed from markup: text nodes and elements with their
    attributes and children. *)
Inductive html :=
| Txt (s : string)
| El (tag : string) (attrs : list (string * string)) (kids : list html).

(** A template literal: literal text, substitutions [${...}], and the two
    characters written apart here, the double quote and the line feed. *)
Inductive part :=
| Lit (s : string)
| Sub (s : string)
| Quote
| NL.

Definition dquote : string := String (Ascii.ascii_of_nat 34) EmptyString.

Definition newline : string := String (Ascii.ascii_of_nat 10) EmptyString.

Definition part_text (p : part) : string :=
  match p with
  | Lit s | Sub s => s
  | Quote => dquote
  | NL => newline
  end.

(** The string a template literal evaluates to: substitutions are spliced in
    as they are, nothing is escaped. *)
Fixpoint template (parts : list part) : string :=
  match parts with
  | [] => EmptyString
  | p :: rest => part_text p +:+ template rest
  end.

(** A gallery card: the [div] built by [document.createElement] with the
    properties the script sets on it.  [innerHTML] is the string assigned;
    what the browser's parser builds from it is [Html.parse] below. *)
Record card := {
  className : string;
  innerHTML : string;
  tabIndex : Z;
  cursor : string;
  _apodItem : Item
}.

(** A child of the gallery container. *)
Inductive child :=
| Parsed (h : html)
| CardEl (c : card).

Definition no_items_placeholder : list html :=
  [El "div" [("class", "placeholder")]
     [El "div" [("class", "placeholder-icon")] [Txt "🔭"];
      El "p" [] [Txt "No items found."]]].

Definition play_overlay_style : string :=
  "position:absolute;left:50%;top:50%;transform:translate(-50%,-50%);font-size:36px;color:rgba(255,255,255,0.95);text-shadow:0 2px 8px rgba(0,0,0,0.6);".

Definition video_placeholder_style : string :=
  "display:flex;flex-direction:column;align-items:center;gap:8px;padding:24px;background:#0b3d9110;border-radius:6px;".

Definition watch_link_style : string :=
  "color:#0b3d91;font-weight:600;text-decoration:underline;".

(** The four template literals assigned to [mediaHtml]. *)
Definition image_parts (url title : string) : list part :=
  [NL; Lit "        <img src="; Quote; Sub url; Quote;
   Lit " alt="; Quote; Sub title; Quote; Lit " />";
   NL; Lit "      "].

Definition video_thumb_parts (thumb title : string) : list part :=
  [NL; Lit "          <div class="; Quote; Lit "video-thumb"; Quote;
   Lit " style="; Quote; Lit "position:relative;"; Quote; Lit ">";
   NL; Lit "            <img src="; Quote; Sub thumb; Quote;
   Lit " alt="; Quote; Sub title; Lit " (video thumbnail)"; Quote; Lit " />";
   NL; Lit "            <span class="; Quote; Lit "play-overlay"; Quote;
   Lit " aria-hidden="; Quote; Lit "true"; Quote;
   Lit " style="; Quote; Lit play_overlay_style; Quote; Lit ">▶</span>";
   NL; Lit "          </div>";
   NL; Lit "        "].

Definition video_placeholder_parts (safeUrl : string) : list part :=
  [NL; Lit "          <div class="; Quote; Lit "video-placeholder"; Quote;
   Lit " style="; Quote; Lit video_placeholder_style; Quote; Lit ">";
   NL; Lit "            <div style="; Quote; Lit "font-size:20px;"; Quote;
   Lit ">▶ Video</div>";
   NL; Lit "            <a href="; Quote; Sub safeUrl; Quote;
   Lit " target="; Quote; Lit "_blank"; Quote;
   Lit " rel="; Quote; Lit "noopener noreferrer"; Quote;
   Lit " style="; Quote; Lit watch_link_style; Quote; Lit ">Watch video</a>";
   NL; Lit "          </div>";
   NL; Lit "        "].

Definition unsupported_parts (mediaType : string) : list part :=
  [Lit "<p>Unsupported media type: "; Sub mediaType; Lit "</p>"].

(** The [mediaHtml] of one card. *)
Definition mediaHtml (mediaType url thumb title : string) : string :=
  if String.eqb mediaType "image" then
    template (image_parts url title)
  else if String.eqb mediaType "video" then
    match thumb with
    | String _ _ => template (video_thumb_parts thumb title)
    | EmptyString =>
        let safeUrl := or_text url "#" in
        template (video_placeholder_parts safeUrl)
    end
  else
    template (unsupported_parts mediaType).

(** The template literal assigned to [card.innerHTML]. *)
Definition card_parts (mediaHtml title date : string) : list part :=
  [NL; Lit "      "; Sub mediaHtml;
   NL; Lit "      <p><strong>"; Sub title; Lit "</strong></p>";
   NL; Lit "      <p>"; Sub date; Lit "</p>";
   NL; Lit "    "].

(** The body of the [forEach] callback up to [gallery.appendChild(card)]. *)
Definition make_card (item : Item) : card :=
  let title := or_else (item !! "title") "Untitled" in
  let date := or_else (item !! "date") "" in
  let mediaType := or_else (item !! "media_type") "image" in
  let url := or_else (item !! "url") "" in
  let thumb := or_else (item !! "thumbnail_url") "" in
  {| className := "gallery-item";
     innerHTML := template (card_parts (mediaHtml mediaType url thumb title)
                                       title date);
     tabIndex := 0;
     cursor := "pointer";
     _apodItem := item |}.

(** [items.forEach(item => ...)]: the cards are appended one by one; a
    callback that throws stops the loop and leaves the cards appended so
    far. *)
Fixpoint forEach (items : list value) (g : list child)
  : list child * completion unit :=
  match items with
  | [] => (g, Normal tt)
  | v :: rest =>
      match fields v with
      | Throw e => (g, Throw e)
      | Normal item => forEach rest (g ++ [CardEl (make_card item)])
      end
  end.

(** [renderGallery(items)], on the children of the gallery container. *)
Definition renderGallery (items : value) (g : list child)
  : list child * completion unit :=
  let g := [] in
  if negb (isArray items) || (length (elements items) =? 0)%nat then
    (Parsed <$> no_items_placeholder, Normal tt)
  else
    forEach (elements items) g.

End Gallery.

(** ** The browser's fragment parser, on the markup the templates produce *)

Module Html.

Import Gallery.

(** The parser is modelled on a fragment of HTML only: lower-case tags and
    attribute names, attribute values in double quotes, no character
    references, the elements [div], [p], [span], [strong], [a] properly
    nested and the void element [img].  On anything else [parse] gives
    [None]: what the browser builds there is not modelled. *)

Definition code (c : Ascii.ascii) : nat := Ascii.nat_of_ascii c.

Definition code_is (n : nat) (c : Ascii.ascii) : bool := (code c =? n)%nat.

(** Characters by their code: [<] 60, [>] 62, [/] 47, [=] 61, [&] 38,
    the double quote 34, [-] 45, NUL 0, CR 13. *)
Definition is_space (c : Ascii.ascii) : bool :=
  code_is 32 c || code_is 10 c || code_is 9 c || code_is 12 c.

Definition is_lower (c : Ascii.ascii) : bool :=
  (97 <=? code c)%nat && (code c <=? 122)%nat.

Definition is_digit (c : Ascii.ascii) : bool :=
  (48 <=? code c)%nat && (code c <=? 57)%nat.

(** A character the tokenizer takes as it is, in text and in a quoted
    attribute value alike. *)
Definition inert_char (c : Ascii.ascii) : bool :=
  negb (code_is 60 c || code_is 38 c || code_is 34 c || code_is 13 c || code_is 0 c).

Fixpoint inert (s : string) : bool :=
  match s with
  | EmptyString => true
  | String c s' => inert_char c && inert s'
  end.

Definition snoc (s : string) (c : Ascii.ascii) : string :=
  s +:+ String c EmptyString.

Inductive token :=
| TText (s : string)
| TOpen (tag : string) (attrs : list (string * string)) (self_closing : bool)
| TClose (tag : string).

(** The tokenizer states the fragment needs. *)
Inductive mode :=
| Data (text : string)
| TagOpen
| TagName (tag : string)
| BeforeAttrName (tag : string) (attrs : list (string * string))
| AttrName (tag : string) (attrs : list (string * string)) (name : string)
| BeforeAttrValue (tag : string) (attrs : list (string * string)) (name : string)
| AttrValue (tag : string) (attrs : list (string * string)) (name value : string)
| AfterAttrValue (tag : string) (attrs : list (string * string))
| SelfClosing (tag : string) (attrs : list (string * string))
| EndTagOpen
| EndTagName (tag : string).

Definition emit_text (text : string) (toks : list token) : list token :=
  match text with
  | EmptyString => toks
  | String _ _ => toks ++ [TText text]
  end.

Definition has_name (name : string) (attrs : list (string * string)) : bool :=
  existsb (fun kv => String.eqb kv.1 name) attrs.

(** One character of input. *)
Definition step (toks : list token) (m : mode) (c : Ascii.ascii)
  : option (list token * mode) :=
  match m with
  | Data text =>
      if code_is 60 c then Some (emit_text text toks, TagOpen)
      else if code_is 38 c || code_is 13 c || code_is 0 c then None
      else Some (toks, Data (snoc text c))
  | TagOpen =>
      if code_is 47 c then Some (toks, EndTagOpen)
      else if is_lower c then Some (toks, TagName (String c EmptyString))
      else None
  | TagName tag =>
      if is_space c then Some (toks, BeforeAttrName tag [])
      else if code_is 47 c then Some (toks, SelfClosing tag [])
      else if code_is 62 c then Some (toks ++ [TOpen tag [] false], Data EmptyString)
      else if is_lower c || is_digit c then Some (toks, TagName (snoc tag c))
      else None
  | BeforeAttrName tag attrs =>
      if is_space c then Some (toks, BeforeAttrName tag attrs)
      else if code_is 47 c then Some (toks, SelfClosing tag attrs)
      else if code_is 62 c then
        Some (toks ++ [TOpen tag attrs false], Data EmptyString)
      else if is_lower c then
        Some (toks, AttrName tag attrs (String c EmptyString))
      else None
  | AttrName tag attrs name =>
      if code_is 61 c then Some (toks, BeforeAttrValue tag attrs name)
      else if is_lower c || code_is 45 c then
        Some (toks, AttrName tag attrs (snoc name c))
      else None
  | BeforeAttrValue tag attrs name =>
      if code_is 34 c then Some (toks, AttrValue tag attrs name EmptyString)
      else None
  | AttrValue tag attrs name value =>
      if code_is 34 c then
        if has_name name attrs then None
        else Some (toks, AfterAttrValue tag (attrs ++ [(name, value)]))
      else if code_is 38 c || code_is 13 c || code_is 0 c then None
      else Some (toks, AttrValue tag attrs name (snoc value c))
  | AfterAttrValue tag attrs =>
      if is_space c then Some (toks, BeforeAttrName tag attrs)
      else if code_is 47 c then Some (toks, SelfClosing tag attrs)
      else if code_is 62 c then
        Some (toks ++ [TOpen tag attrs false], Data EmptyString)
      else None
  | SelfClosing tag attrs =>
      if code_is 62 c then Some (toks ++ [TOpen tag attrs true], Data EmptyString)
      else None
  | EndTagOpen =>
      if is_lower c then Some (toks, EndTagName (String c EmptyString))
      else None
  | EndTagName tag =>
      if code_is 62 c then Some (toks ++ [TClose tag], Data EmptyString)
      else if is_lower c || is_digit c then Some (toks, EndTagName (snoc tag c))
      else None
  end.

Fixpoint run (toks : list token) (m : mode) (s : string)
  : option (list token * mode) :=
  match s with
  | EmptyString => Some (toks, m)
  | String c s' =>
      match step toks m c with
      | Some (toks', m') => run toks' m' s'
      | None => None
      end
  end.

(** The tokens of a whole input: it must end in text. *)
Definition tokenize (s : string) : option (list token) :=
  match run [] (Data EmptyString) s with
  | Some (toks, Data text) => Some (emit_text text toks)
  | _ => None
  end.

Definition void (tag : string) : bool := String.eqb tag "img".

Definition container (tag : string) : bool :=
  String.eqb tag "div" || String.eqb tag "p" || String.eqb tag "span" ||
  String.eqb tag "strong" || String.eqb tag "a".

(** An open element: its tag, its attributes and the children its parent
    had before it. *)
Definition frame : Type := string * list (string * string) * list html.

Definition is_open (tag : string) (stack : list frame) : bool :=
  existsb (fun f => String.eqb f.1.1 tag) stack.

(** Start tags the tree builder would answer by closing or rearranging
    open elements: a [p] or [div] while a [p] is open, an [a] inside an
    [a]. *)
Definition disturbs (tag : string) (stack : list frame) : bool :=
  ((String.eqb tag "p" || String.eqb tag "div") && is_open "p" stack) ||
  (String.eqb tag "a" && is_open "a" stack).

(** Tree construction: [kids] are the children of the current node so
    far. *)
Fixpoint build (toks : list token) (stack : list frame) (kids : list html)
  : option (list html) :=
  match toks with
  | [] => match stack with [] => Some kids | _ :: _ => None end
  | TText s :: rest => build rest stack (kids ++ [Txt s])
  | TOpen tag attrs self_closing :: rest =>
      if void tag then build rest stack (kids ++ [El tag attrs []])
      else if self_closing || negb (container tag) || disturbs tag stack then
        None
      else build rest ((tag, attrs, kids) :: stack) []
  | TClose tag :: rest =>
      match stack with
      | (tag', attrs, before) :: stack' =>
          if String.eqb tag tag' && container tag then
            build rest stack' (before ++ [El tag attrs kids])
          else None
      | [] => None
      end
  end.

(** The children a [div] gets when [s] is assigned to its [innerHTML]. *)
Definition parse (s : string) : option (list html) :=
  match tokenize s with
  | Some toks => build toks [] []
  | None => None
  end.

(** The element children of a node list, and the text inside a node. *)
Fixpoint elements_of (l : list html) : list html :=
  match l with
  | [] => []
  | Txt _ :: rest => elements_of rest
  | El tag attrs kids :: rest => El tag attrs kids :: elements_of rest
  end.

Fixpoint textContent (h : html) : string :=
  match h with
  | Txt s => s
  | El _ _ kids => fold_right (fun k acc => textContent k +:+ acc) EmptyString kids
  end.


(** *** Running the tokenizer over the parts of a template *)

(** A substitution met in text or inside a quoted value is taken whole. *)
Definition absorb (m : mode) (s : string) : option mode :=
  match m with
  | Data t => Some (Data (t +:+ s))
  | AttrValue tag attrs name v => Some (AttrValue tag attrs name (v +:+ s))
  | _ => None
  end.

(** The tokenizer run part by part: a substitution is absorbed, and so is
    a literal that is inert where text is being collected; any other
    literal is run character by character. *)
Definition run_literal (toks : list token) (m : mode) (s : string)
  : option (list token * mode) :=
  match (if inert s then absorb m s else None) with
  | Some m' => Some (toks, m')
  | None => run toks m s
  end.

Fixpoint run_parts (toks : list token) (m : mode) (parts : list part)
  : option (list token * mode) :=
  match parts with
  | [] => Some (toks, m)
  | Sub s :: rest =>
      match absorb m s with
      | Some m' => run_parts toks m' rest
      | None => None
      end
  | p :: rest =>
      match run_literal toks m (part_text p) with
      | Some (toks', m') => run_parts toks' m' rest
      | None => None
      end
  end.

Definition inert_sub (p : part) : Prop :=
  match p with
  | Sub s => inert s = true
  | _ => True
  end.

(** The card template with the parts of its media written out. *)
Definition card_flat (media : list part) (title date : string) : list part :=
  [NL; Lit "      "] ++ media ++
  [NL; Lit "      <p><strong>"; Sub title; Lit "</strong></p>";
   NL; Lit "      <p>"; Sub date; Lit "</p>";
   NL; Lit "    "].

(** The text child of an element whose text is [s]: none when [s] is empty. *)
Definition text_node (s : string) : list html :=
  match s with
  | EmptyString => []
  | String _ _ => [Txt s]
  end.

End Html.

(** ** Media resolver: watch link and thumbnail of a video *)

Module Resolver.

Import JsString.

(** [s.split(marker)[1].split(delim)[0]].  Indexing past the end of an array
    gives [undefined]; calling [split] on [undefined] throws, and
    interpolating [undefined] in a template writes the word. *)
Definition extract_id (s marker delim : string) : completion string :=
  match split s marker !! 1 with
  | None => Throw TypeError
  | Some segment =>
      match split segment delim !! 0 with
      | Some id => Normal id
      | None => Normal "undefined"
      end
  end.

Definition watch_of (id : string) : string :=
  "https://www.youtube.com/watch?v=" +:+ id.

Definition thumb_of (id : string) : string :=
  "https://img.youtube.com/vi/" +:+ id +:+ "/hqdefault.jpg".

(** [if (!thumbUrl) thumbUrl = ...] *)
Definition keep_or (thumbUrl derived : string) : string :=
  match thumbUrl with
  | EmptyString => derived
  | String _ _ => thumbUrl
  end.

(** The body of the [try] block on the variables [watchUrl] and [thumbUrl].
    Each branch computes [id] before it assigns anything, so a branch that
    throws has left both variables as they were. *)
Definition resolve_try (watchUrl thumbUrl : string)
  : completion (string * string) :=
  if includes watchUrl "/embed/" then
    match extract_id watchUrl "/embed/" "?" with
    | Throw e => Throw e
    | Normal id => Normal (watch_of id, keep_or thumbUrl (thumb_of id))
    end
  else if includes watchUrl "watch?v=" then
    match extract_id watchUrl "watch?v=" "&" with
    | Throw e => Throw e
    | Normal id => Normal (watchUrl, keep_or thumbUrl (thumb_of id))
    end
  else if includes watchUrl "youtu.be/" then
    match extract_id watchUrl "youtu.be/" "?" with
    | Throw e => Throw e
    | Normal id => Normal (watch_of id, keep_or thumbUrl (thumb_of id))
    end
  else Normal (watchUrl, thumbUrl).

(** [try { ... } catch (e) { }]: the values of [watchUrl] and [thumbUrl]
    after the statement. *)
Definition resolve (watchUrl thumbUrl : string) : string * string :=
  match resolve_try watchUrl thumbUrl with
  | Normal r => r
  | Throw _ => (watchUrl, thumbUrl)
  end.

End Resolver.

(** ** Modal controller *)

Module Modal.

(** An element that can hold the focus; [has_focus] is
    [typeof el.focus === 'function']. *)
Record element := { el_name : string; has_focus : bool }.

Definition closeBtn : element :=
  {| el_name := "apod-modal-close"; has_focus := true |}.

(** A child of the media container. *)
Inductive node :=
| ImgEl
| Img (src alt : string) (style : list (string * string))
| P (textContent : string)
| Div (cls textContent : string)
| A (href target rel cls textContent : string).

(** The modal's DOM, as far as the script reads or writes it.  [ImgEl] in
    [mediaWrap] is the one [imgEl] made at creation, whose attributes are
    [imgEl_src] and [imgEl_alt]. *)
Record modal := {
  root_display : string;
  imgEl_src : string;
  imgEl_alt : string;
  iframeEl_src : option string;
  titleEl : string;
  dateEl : string;
  explEl : string;
  mediaWrap : list node
}.

(** The document state the modal code works on. *)
Record doc := {
  _apodModal : option modal;
  _apodModalPrevActive : option element;
  activeElement : option element;
  keydown_listener : bool
}.

Definition createApodModal : modal :=
  {| root_display := "";
     imgEl_src := "";
     imgEl_alt := "";
     iframeEl_src := None;
     titleEl := "";
     dateEl := "";
     explEl := "";
     mediaWrap := [ImgEl] |}.

(** [while (mediaWrap.firstChild) mediaWrap.removeChild(mediaWrap.firstChild)] *)
Fixpoint remove_children (kids : list node) : list node :=
  match kids with
  | [] => []
  | _ :: rest => remove_children rest
  end.

Definition thumb_style : list (string * string) :=
  [("width", "100%"); ("height", "auto"); ("borderRadius", "6px")].

(** The branch for a video with a url: what it appends to the media
    container. *)
Definition video_nodes (item : Item) : list node :=
  let watchUrl := or_else (item !! "url") "" in
  let thumbUrl := or_else (item !! "thumbnail_url") "" in
  let '(watchUrl, thumbUrl) := Resolver.resolve watchUrl thumbUrl in
  [match thumbUrl with
   | String _ _ =>
       Img thumbUrl (or_else (item !! "title") "Video thumbnail") thumb_style
   | EmptyString => P "Video (no thumbnail available)"
   end;
   Div "video-embed-hint" "This video will open on YouTube.";
   A (or_text watchUrl (or_else (item !! "url") "#"))
     "_blank" "noopener noreferrer" "video-watch-link"
     "Watch video on YouTube"].

(** The media branches of [openApodModal]: the new attributes of [imgEl] and
    the children appended to the emptied container. *)
Definition place_media (item : Item) (m : modal) (kids : list node)
  : string * string * list node :=
  if media_type_is item "image" && truthy (item !! "hdurl") then
    (or_else (item !! "hdurl") (or_else (item !! "url") ""),
     or_else (item !! "title") "APOD image",
     kids ++ [ImgEl])
  else if media_type_is item "image" && truthy (item !! "url") then
    (or_else (item !! "url") "",
     or_else (item !! "title") "APOD image",
     kids ++ [ImgEl])
  else if media_type_is item "video" && truthy (item !! "url") then
    (imgEl_src m, imgEl_alt m, kids ++ video_nodes item)
  else if media_type_is item "video" && truthy (item !! "thumbnail_url") then
    (imgEl_src m, imgEl_alt m,
     kids ++ [Img (or_else (item !! "thumbnail_url") "")
                  (or_else (item !! "title") "Video thumbnail") []])
  else
    (imgEl_src m, imgEl_alt m, kids ++ [P "Media not available."]).

Definition openApodModal (item : Item) (d : doc) : doc :=
  let m := match _apodModal d with
           | Some m => m
           | None => createApodModal
           end in
  let prev := activeElement d in
  let kids := remove_children (mediaWrap m) in
  let '(src, alt, kids) := place_media item m kids in
  {| _apodModal :=
       Some {| root_display := "flex";
               imgEl_src := src;
               imgEl_alt := alt;
               iframeEl_src := iframeEl_src m;
               titleEl := or_else (item !! "title") "Untitled";
               dateEl := or_else (item !! "date") "";
               explEl := or_else (item !! "explanation") "";
               mediaWrap := kids |};
     _apodModalPrevActive := prev;
     activeElement := Some closeBtn;
     keydown_listener := true |}.

Definition closeApodModal (d : doc) : doc :=
  match _apodModal d with
  | None => d
  | Some m =>
      {| _apodModal :=
           Some {| root_display := "none";
                   imgEl_src := imgEl_src m;
                   imgEl_alt := imgEl_alt m;
                   iframeEl_src := Some "";
                   titleEl := titleEl m;
                   dateEl := dateEl m;
                   explEl := explEl m;
                   mediaWrap := mediaWrap m |};
         _apodModalPrevActive := _apodModalPrevActive d;
         activeElement :=
           match _apodModalPrevActive d with
           | Some el => if has_focus el then Some el else activeElement d
           | None => activeElement d
           end;
         keydown_listener := false |}
  end.

Definition _apodModalKeydown (key : string) (d : doc) : doc :=
  if String.eqb key "Escape" then closeApodModal d else d.

(** Where a click inside the modal surface lands: [e.target]. *)
Inductive target := OnOverlay | OnBox | OnCloseBtn.

Inductive event :=
| Click (t : target)
| KeyDown (key : string).

(** The listener on the overlay. *)
Definition overlay_click (t : target) (d : doc) : doc :=
  match t with
  | OnOverlay => closeApodModal d
  | OnBox | OnCloseBtn => d
  end.

(** Event dispatch over the listeners the modal code registers: a click runs
    the listener of the close button when it is the target, then bubbles to
    the overlay; a key press reaches [_apodModalKeydown] while it is
    registered on the document. *)
Definition dispatch (e : event) (d : doc) : doc :=
  match e with
  | Click t =>
      match _apodModal d with
      | None => d
      | Some _ =>
          let d := match t with
                   | OnCloseBtn => closeApodModal d
                   | OnOverlay | OnBox => d
                   end in
          overlay_click t d
      end
  | KeyDown key =>
      if keydown_listener d then _apodModalKeydown key d else d
  end.

(** The handlers of a gallery card. *)
Definition card_click (item : Item) (d : doc) : doc := openApodModal item d.

Definition card_keydown (key : string) (item : Item) (d : doc) : doc :=
  if String.eqb key "Enter" || String.eqb key " " then openApodModal item d
  else d.

(** The document before any card was activated. *)
Definition initial (focus : option element) : doc :=
  {| _apodModal := None;
     _apodModalPrevActive := None;
     activeElement := focus;
     keydown_listener := false |}.

End Modal.

(** ** Feed loader and the trigger control *)

Module Feed.

Import Gallery.

(** What the one network exchange can come back with: [fetch] rejects, or a
    response arrives with its [ok] flag, its status and a body that parses
    as JSON ([Some]) or does not ([None]). *)
Inductive exchange :=
| Rejected
| Responded (ok : bool) (status : nat) (json : option value).

(** The trigger control, the gallery container, the cache and the console. *)
Record page := {
  disabled : bool;
  textContent : string;
  gallery : list child;
  fullData : option value;
  console : list exn
}.

Definition set_gallery (g : list child) (p : page) : page :=
  {| disabled := disabled p;
     textContent := textContent p;
     gallery := g;
     fullData := fullData p;
     console := console p |}.

Definition set_fullData (v : value) (p : page) : page :=
  {| disabled := disabled p;
     textContent := textContent p;
     gallery := gallery p;
     fullData := Some v;
     console := console p |}.

Definition set_button (dis : bool) (label : string) (p : page) : page :=
  {| disabled := dis;
     textContent := label;
     gallery := gallery p;
     fullData := fullData p;
     console := console p |}.

(** [console.error('Fetch error:', err)] *)
Definition console_error (e : exn) (p : page) : page :=
  {| disabled := disabled p;
     textContent := textContent p;
     gallery := gallery p;
     fullData := fullData p;
     console := console p ++ [e] |}.

(** The body of the [try] of [fetchApodData]. *)
Definition fetch_body (net : exchange) (p : page) : page * completion value :=
  match net with
  | Rejected => (p, Throw TypeError)
  | Responded false status _ => (p, Throw (NetworkError status))
  | Responded true _ None => (p, Throw SyntaxError)
  | Responded true _ (Some data) => (set_fullData data p, Normal data)
  end.

(** [fetchApodData()]: the error is logged and thrown again. *)
Definition fetchApodData (net : exchange) (p : page) : page * completion value :=
  match fetch_body net p with
  | (p, Normal data) => (p, Normal data)
  | (p, Throw err) => (console_error err p, Throw err)
  end.

Definition loading_placeholder : list html :=
  [El "div" [("class", "placeholder")]
     [El "div" [("class", "placeholder-icon")] [Txt "🔄"];
      El "p" [] [Txt "🔄 Loading space photos…"]]].

Definition error_placeholder : list html :=
  [El "div" [("class", "placeholder")]
     [El "div" [("class", "placeholder-icon")] [Txt "⚠️"];
      El "p" [] [Txt "Failed to load data. Check the console for details."]]].

(** The click handler up to its [await]: the page while the fetch is
    pending. *)
Definition click_pending (p : page) : page :=
  set_gallery (Parsed <$> loading_placeholder) (set_button true "Loading..." p).

(** The [try] block of the handler after the fetch has settled. *)
Definition click_try (net : exchange) (p : page) : page * completion unit :=
  match fetchApodData net p with
  | (p, Throw err) => (p, Throw err)
  | (p, Normal items) =>
      let p := set_fullData items p in
      let '(g, r) := renderGallery items (gallery p) in
      (set_gallery g p, r)
  end.

(** [try ... catch ... finally] of the handler. *)
Definition click_settled (net : exchange) (p : page) : page :=
  let '(p, r) := click_try net p in
  let p := match r with
           | Normal _ => p
           | Throw _ => set_gallery (Parsed <$> error_placeholder) p
           end in
  set_button false "Fetch Space Images" p.

(** One activation of the trigger control, from click to settled fetch. *)
Definition click_handler (net : exchange) (p : page) : page :=
  click_settled net (click_pending p).

End Feed.

(** ** What a user sees: views of the rendered gallery and modal *)

(** The display variant of the spec's Media Resolver. *)
Inductive variant :=
| Image
| VideoWithThumbnail
| VideoNoThumbnail
| Unsupported.

Module GalleryView.

Import Gallery.

Fixpoint attr (name : string) (attrs : list (string * string)) : option string :=
  match attrs with
  | [] => None
  | (k, v) :: rest => if String.eqb k name then Some v else attr name rest
  end.

(** What the browser builds from the string assigned to a card's
    [innerHTML], where the parser model covers it. *)
Definition card_tree (c : card) : option (list html) :=
  Html.parse (innerHTML c).

(** The variant a card's media element stands for: an [img]; a
    [div.video-thumb] holding an [img] and the [span.play-overlay]; a
    [div.video-placeholder] holding a box and a link; a paragraph. *)
Definition variant_of (h : html) : option variant :=
  match h with
  | Txt _ => None
  | El tag attrs kids =>
      if String.eqb tag "img" then Some Image
      else if String.eqb tag "p" then Some Unsupported
      else if String.eqb tag "div" then
        match attr "class" attrs, Html.elements_of kids with
        | Some cls, [El tag1 _ _; El tag2 attrs2 _] =>
            if String.eqb cls "video-thumb" && String.eqb tag1 "img" &&
               String.eqb tag2 "span" &&
               bool_decide (attr "class" attrs2 = Some "play-overlay")
            then Some VideoWithThumbnail
            else if String.eqb cls "video-placeholder" &&
                    String.eqb tag1 "div" && String.eqb tag2 "a"
            then Some VideoNoThumbnail
            else None
        | _, _ => None
        end
      else None
  end.

(** The media element of a card: its first element child. *)
Definition card_media (c : card) : option html :=
  match card_tree c with
  | Some tree => head (Html.elements_of tree)
  | None => None
  end.

Definition card_variant (c : card) : option variant :=
  match card_media c with
  | Some h => variant_of h
  | None => None
  end.

(** The [src] of the picture a card shows: of the root [img], or of the
    [img] that is the first element inside a video thumbnail box. *)
Definition img_src (h : html) : option string :=
  match h with
  | Txt _ => None
  | El tag attrs kids =>
      if String.eqb tag "img" then attr "src" attrs
      else match Html.elements_of kids with
           | El tag' attrs' _ :: _ =>
               if String.eqb tag' "img" then attr "src" attrs' else None
           | _ => None
           end
  end.

Definition card_img_src (c : card) : option string :=
  match card_media c with
  | Some h => img_src h
  | None => None
  end.

(** The text of a card's media element when it is a paragraph. *)
Definition card_message (c : card) : option string :=
  match card_media c with
  | Some (El tag attrs kids) =>
      if String.eqb tag "p" then Some (Html.textContent (El tag attrs kids))
      else None
  | _ => None
  end.

(** The texts a card splices into its markup, with their defaults. *)
Definition spliced (item : Item) : list string :=
  [or_else (item !! "title") "Untitled";
   or_else (item !! "date") "";
   or_else (item !! "media_type") "image";
   or_else (item !! "url") "";
   or_else (item !! "thumbnail_url") ""].

(** None of them holds a character the parser would not take as it is:
    no [<], no [&], no double quote, no CR, no NUL. *)
Definition inert_fields (item : Item) : bool :=
  forallb Html.inert (spliced item).

(** The four card templates. *)
Definition image_card (url title date : string) : string :=
  template (card_parts (template (image_parts url title)) title date).

Definition video_thumb_card (thumb title date : string) : string :=
  template (card_parts (template (video_thumb_parts thumb title)) title date).

Definition video_placeholder_card (safeUrl title date : string) : string :=
  template (card_parts (template (video_placeholder_parts safeUrl)) title date).

Definition unsupported_card (mediaType title date : string) : string :=
  template (card_parts (template (unsupported_parts mediaType)) title date).

Definition is_placeholder (c : child) : bool :=
  match c with
  | Parsed (El tag attrs _) =>
      String.eqb tag "div" && bool_decide (attr "class" attrs = Some "placeholder")
  | Parsed (Txt _) | CardEl _ => false
  end.

Definition is_card (c : child) : bool :=
  match c with
  | CardEl _ => true
  | Parsed _ => false
  end.

Definition count (f : child -> bool) (g : list child) : nat :=
  length (filter (fun c => f c = true) g).

(** The paragraph of a placeholder. *)
Definition placeholder_text (c : child) : option string :=
  match c with
  | Parsed (El _ _ [_; El _ _ [Txt s]]) => Some s
  | _ => None
  end.

(** The spec's rule for the picture of an image Record: [hdurl] when
    present, else [url]. *)
Definition display_url (item : Item) : string :=
  if truthy (item !! "hdurl") then or_else (item !! "hdurl") ""
  else or_else (item !! "url") "".

(** The spec's rule for a resolvable thumbnail: a [thumbnail_url] is present,
    or the [url] has one of the three recognizable shapes. *)
Definition recognizable (url : string) : bool :=
  JsString.includes url "/embed/" || JsString.includes url "watch?v=" ||
  JsString.includes url "youtu.be/".

Definition thumbnail_resolvable (item : Item) : bool :=
  truthy (item !! "thumbnail_url") || recognizable (or_else (item !! "url") "").

End GalleryView.

Module ModalView.

Import Modal.

(** The media container as displayed: the shared [imgEl] with the
    attributes it has now. *)
Definition shown (m : modal) : list node :=
  (fun n => match n with
            | ImgEl => Img (imgEl_src m) (imgEl_alt m) []
            | _ => n
            end) <$> mediaWrap m.

(** The children of the media container, as nodes. *)
Definition children (d : doc) : list node :=
  match _apodModal d with
  | Some m => mediaWrap m
  | None => []
  end.

Definition media (d : doc) : list node :=
  match _apodModal d with
  | Some m => shown m
  | None => []
  end.

Definition node_src (n : node) : option string :=
  match n with
  | Img src _ _ => Some src
  | _ => None
  end.

Definition node_href (n : node) : option string :=
  match n with
  | A href _ _ _ _ => Some href
  | _ => None
  end.

Definition node_text (n : node) : option string :=
  match n with
  | P t | Div _ t | A _ _ _ _ t => Some t
  | ImgEl | Img _ _ _ => None
  end.

(** The first picture, the first link and the texts in the media
    container. *)
Definition picture (d : doc) : option string :=
  list_find (fun n => is_Some (node_src n)) (media d) ≫= (node_src ∘ snd).

Definition watch_link (d : doc) : option string :=
  list_find (fun n => is_Some (node_href n)) (media d) ≫= (node_href ∘ snd).

Definition texts (d : doc) : list string :=
  omap node_text (media d).

(** The modal surface is closed. *)
Definition closed (d : doc) : Prop :=
  (exists m, _apodModal d = Some m /\ root_display m = "none" /\
             iframeEl_src m = Some "") /\
  keydown_listener d = false.

End ModalView.

(** ** Card handlers, user actions and link views *)

Module Page.

Import Modal.

(** The [keydown] listener of a card: the flag says whether
    [e.preventDefault()] ran. *)
Definition card_keydown_event (key : string) (item : Item) (d : doc)
  : bool * doc :=
  if String.eqb key "Enter" || String.eqb key " " then
    (true, openApodModal item d)
  else (false, d).

(** What can happen to the document once the gallery is rendered: a card is
    clicked, a key goes down on a card, an event reaches the modal's
    listeners, or the user moves the focus elsewhere. *)
Inductive action :=
| CardClick (item : Item)
| CardKey (key : string) (item : Item)
| Surface (e : event)
| FocusMoved (el : option element).

Definition step (a : action) (d : doc) : doc :=
  match a with
  | CardClick item => card_click item d
  | CardKey key item => (card_keydown_event key item d).2
  | Surface e => dispatch e d
  | FocusMoved el =>
      {| _apodModal := _apodModal d;
         _apodModalPrevActive := _apodModalPrevActive d;
         activeElement := el;
         keydown_listener := keydown_listener d |}
  end.

Definition run (trace : list action) (d : doc) : doc :=
  fold_left (fun d a => step a d) trace d.

(** The modal is on screen. *)
Definition visible (d : doc) : bool :=
  match _apodModal d with
  | Some m => String.eqb (root_display m) "flex"
  | None => false
  end.

(** What every step keeps: the Escape listener is registered exactly while
    the surface is shown, the media container holds one to three children,
    and the iframe has no address. *)
Definition kept (d : doc) : Prop :=
  visible d = keydown_listener d /\
  forall m, _apodModal d = Some m ->
            (root_display m = "flex" \/ root_display m = "none") /\
            1 <= length (mediaWrap m) <= 3 /\
            (iframeEl_src m = None \/ iframeEl_src m = Some "").

(** The anchors among the children of the media container, each with its
    [href], [target] and [rel]. *)
Definition node_anchor (n : node) : option (string * string * string) :=
  match n with
  | A href target rel _ _ => Some (href, target, rel)
  | _ => None
  end.

Definition modal_anchors (d : doc) : list (string * string * string) :=
  omap node_anchor (ModalView.media d).

(** The attribute lists of the [a] elements of a piece of markup. *)
Fixpoint anchors (h : Gallery.html) : list (list (string * string)) :=
  match h with
  | Gallery.Txt _ => []
  | Gallery.El tag attrs kids =>
      (if String.eqb tag "a" then [attrs] else []) ++
      flat_map anchors kids
  end.

Definition card_anchors (c : Gallery.card) : list (list (string * string)) :=
  match GalleryView.card_tree c with
  | Some tree => flat_map anchors tree
  | None => []
  end.

(** The title and the date a card prints under its media: the texts of the
    second and the third element of the card. *)
Definition card_title (c : Gallery.card) : option string :=
  match GalleryView.card_tree c with
  | Some tree =>
      match Html.elements_of tree with
      | [_; h; _] => Some (Html.textContent h)
      | _ => None
      end
  | None => None
  end.

Definition card_date (c : Gallery.card) : option string :=
  match GalleryView.card_tree c with
  | Some tree =>
      match Html.elements_of tree with
      | [_; _; h] => Some (Html.textContent h)
      | _ => None
      end
  | None => None
  end.

(** The entries of [entries] can all be read, as the Records [items]. *)
Definition readable (entries : list value) (items : list Item) : Prop :=
  Forall2 (fun v item => fields v = Normal item) entries items.

(** The cards of a sequence of Records, in order. *)
Definition cards_of (items : list Item) : list Gallery.child :=
  (fun item => Gallery.CardEl (Gallery.make_card item)) <$> items.

End Page.

(** ** Sample Records and pages *)

Module Samples.

(** The image Record of the spec's first end-to-end example. *)
Definition m1 : Item :=
  {[ "title" := "M1"; "date" := "2024-01-01"; "media_type" := "image";
     "url" := "http://x/m1.jpg" ]}.

(** An image Record with a high-resolution variant. *)
Definition m1_hd : Item :=
  {[ "title" := "M1"; "media_type" := "image";
     "url" := "http://x/m1.jpg"; "hdurl" := "http://x/m1_hd.jpg" ]}.

(** The video Record of the spec's second end-to-end example. *)
Definition embed_video : Item :=
  {[ "media_type" := "video"; "url" := "https://www.youtube.com/embed/abc123" ]}.

(** A video Record with a watch link on the mobile host. *)
Definition mobile_video : Item :=
  {[ "media_type" := "video"; "url" := "https://m.youtube.com/watch?v=abc123" ]}.

(** A video Record with a short link and its own thumbnail. *)
Definition short_video : Item :=
  {[ "media_type" := "video"; "url" := "https://youtu.be/abc123?t=5";
     "thumbnail_url" := "http://x/thumb.jpg" ]}.

(** A video Record whose url has none of the three shapes. *)
Definition other_video : Item :=
  {[ "media_type" := "video"; "url" := "https://vimeo.com/12345" ]}.

(** A Record with no media_type, and one with a media_type of its own. *)
Definition untyped : Item := {[ "title" := "M2"; "url" := "http://x/m2.jpg" ]}.

Definition audio : Item := {[ "media_type" := "audio"; "url" := "http://x/a.mp3" ]}.

(** A gallery card that holds the focus. *)
Definition card0 : Modal.element :=
  {| Modal.el_name := "gallery-item"; Modal.has_focus := true |}.

(** The page as the host document delivers it. *)
Definition idle : Feed.page :=
  {| Feed.disabled := false;
     Feed.textContent := "Fetch Space Images";
     Feed.gallery := [];
     Feed.fullData := None;
     Feed.console := [] |}.

End Samples.

(** * Properties *)

(** ** The parser on the card templates *)

Module HtmlFacts.

Import Gallery Html GalleryView.

#[local] Arguments String.append : simpl nomatch.

Lemma append_assoc (a b c : string) : (a +:+ b) +:+ c = a +:+ b +:+ c.
Proof. induction a as [|x a IH]; [done|]. cbn. by rewrite IH. Qed.

Lemma append_nil_r (a : string) : a +:+ "" = a.
Proof. induction a as [|x a IH]; [done|]. cbn. by rewrite IH. Qed.

Lemma snoc_append t c s : snoc t c +:+ s = t +:+ String c s.
Proof. unfold snoc. by rewrite append_assoc. Qed.

Lemma inert_char_codes c :
  inert_char c = true ->
  code_is 60 c = false /\ code_is 38 c = false /\ code_is 34 c = false /\
  code_is 13 c = false /\ code_is 0 c = false.
Proof.
  unfold inert_char. intros H. apply negb_true_iff in H.
  repeat (apply orb_false_iff in H as [H ?]). by repeat split.
Qed.

(** Text takes an inert string as it is. *)
Lemma run_inert_data s : forall toks t rest,
  inert s = true ->
  run toks (Data t) (s +:+ rest) = run toks (Data (t +:+ s)) rest.
Proof.
  induction s as [|c s IH]; intros toks t rest H.
  - by rewrite append_nil_r.
  - cbn in H. apply andb_true_iff in H as [Hc Hs].
    destruct (inert_char_codes _ Hc) as (H60 & H38 & _ & H13 & H0).
    cbn [String.append run step]. rewrite H60, H38, H13, H0. cbn [orb].
    rewrite (IH _ _ _ Hs). by rewrite snoc_append.
Qed.

(** So does a quoted attribute value. *)
Lemma run_inert_value s : forall toks tag attrs name v rest,
  inert s = true ->
  run toks (AttrValue tag attrs name v) (s +:+ rest)
  = run toks (AttrValue tag attrs name (v +:+ s)) rest.
Proof.
  induction s as [|c s IH]; intros toks tag attrs name v rest H.
  - by rewrite append_nil_r.
  - cbn in H. apply andb_true_iff in H as [Hc Hs].
    destruct (inert_char_codes _ Hc) as (_ & H38 & H34 & H13 & H0).
    cbn [String.append run step]. rewrite H34, H38, H13, H0. cbn [orb].
    rewrite (IH _ _ _ _ _ _ Hs). by rewrite snoc_append.
Qed.

Lemma run_append a : forall toks m b,
  run toks m (a +:+ b)
  = match run toks m a with
    | Some (toks', m') => run toks' m' b
    | None => None
    end.
Proof.
  induction a as [|c a IH]; intros toks m b; [done|].
  cbn [String.append run]. destruct (step toks m c) as [[toks' m']|]; [|done].
  apply IH.
Qed.

Lemma template_app a b : template (a ++ b) = template a +:+ template b.
Proof.
  induction a as [|p a IH]; [done|].
  cbn [app template]. by rewrite IH, append_assoc.
Qed.

Lemma run_absorb s toks m m' rest :
  inert s = true -> absorb m s = Some m' ->
  run toks m (s +:+ rest) = run toks m' rest.
Proof.
  intros Hs. destruct m; cbn [absorb]; try done; intros [= <-].
  - by apply run_inert_data.
  - by apply run_inert_value.
Qed.

Lemma run_literal_sound s toks m rest :
  run toks m (s +:+ rest)
  = match run_literal toks m s with
    | Some (toks', m') => run toks' m' rest
    | None => None
    end.
Proof.
  unfold run_literal. destruct (inert s) eqn:Hs; [|apply run_append].
  destruct (absorb m s) as [m'|] eqn:Ha; [|apply run_append].
  by apply run_absorb.
Qed.

(** With inert substitutions, running part by part is running on the
    string. *)
Lemma run_parts_sound parts : forall toks m r,
  Forall inert_sub parts ->
  run_parts toks m parts = Some r ->
  run toks m (template parts) = Some r.
Proof.
  induction parts as [|p parts IH]; intros toks m r Hin; [done|].
  apply Forall_cons in Hin as [Hp Hin]. cbn [template].
  assert (match run_literal toks m (part_text p) with
          | Some (toks', m') => run_parts toks' m' parts
          | None => None
          end = Some r ->
          run toks m (part_text p +:+ template parts) = Some r) as Hlit.
  { intros H. rewrite run_literal_sound.
    destruct (run_literal toks m (part_text p)) as [[toks' m']|]; [|done].
    by apply IH. }
  destruct p as [s|s| |]; cbn [run_parts]; try exact Hlit.
  cbn [part_text]. cbn in Hp.
  destruct (absorb m s) as [m'|] eqn:Ha; [|done]. intros H.
  rewrite (run_absorb _ _ _ _ _ Hp Ha). by apply IH.
Qed.

Lemma card_flat_template media title date :
  template (card_parts (template media) title date)
  = template (card_flat media title date).
Proof.
  unfold card_flat. rewrite !template_app. cbn [template part_text card_parts].
  by rewrite !append_assoc.
Qed.

Lemma tokenize_parts parts toks text :
  Forall inert_sub parts ->
  run_parts [] (Data "") parts = Some (toks, Data text) ->
  tokenize (template parts) = Some (emit_text text toks).
Proof.
  intros Hin H. unfold tokenize. by rewrite (run_parts_sound _ _ _ _ Hin H).
Qed.

Ltac inert_parts :=
  repeat (constructor; [first [assumption | exact I]|]); constructor.

Ltac card_dom media :=
  match goal with
  | |- context [parse (template (card_parts (template media) ?t ?d))] =>
      let Hin := fresh "Hin" in
      let E := fresh "E" in
      rewrite card_flat_template;
      assert (Forall inert_sub (card_flat media t d)) as Hin
        by (unfold card_flat, image_parts, video_thumb_parts,
              video_placeholder_parts, unsupported_parts;
            cbn [app]; inert_parts);
      unfold parse;
      destruct t, d;
        (match type of Hin with
         | Forall _ ?parts =>
             eassert (run_parts [] (Data "") parts = Some (_, Data _)) as E
               by (vm_compute; reflexivity)
         end);
        rewrite (tokenize_parts _ _ _ Hin E);
        repeat match goal with
               | |- exists _, _ => eexists
               | |- _ /\ _ => split
               end;
        vm_compute; reflexivity
  end.

(** The element children, and the links, a card gets when its spliced
    texts are inert. *)
Lemma image_card_dom u t d :
  inert u = true -> inert t = true -> inert d = true ->
  exists tree,
    parse (image_card u t d) = Some tree /\
    elements_of tree
    = [El "img" [("src", u); ("alt", t)] [];
       El "p" [] [El "strong" [] (text_node t)];
       El "p" [] (text_node d)] /\
    flat_map Page.anchors tree = [].
Proof.
  intros Hu Ht Hd. unfold image_card. card_dom (image_parts u t).
Qed.

Lemma video_thumb_card_dom th t d :
  inert th = true -> inert t = true -> inert d = true ->
  exists tree kids,
    parse (video_thumb_card th t d) = Some tree /\
    elements_of tree
    = [El "div" [("class", "video-thumb"); ("style", "position:relative;")] kids;
       El "p" [] [El "strong" [] (text_node t)];
       El "p" [] (text_node d)] /\
    elements_of kids
    = [El "img" [("src", th); ("alt", t +:+ " (video thumbnail)")] [];
       El "span" [("class", "play-overlay"); ("aria-hidden", "true");
                  ("style", play_overlay_style)] [Txt "▶"]] /\
    flat_map Page.anchors tree = [].
Proof.
  intros Hth Ht Hd. unfold video_thumb_card.
  card_dom (video_thumb_parts th t).
Qed.

Lemma video_placeholder_card_dom su t d :
  inert su = true -> inert t = true -> inert d = true ->
  exists tree kids,
    parse (video_placeholder_card su t d) = Some tree /\
    elements_of tree
    = [El "div" [("class", "video-placeholder");
                 ("style", video_placeholder_style)] kids;
       El "p" [] [El "strong" [] (text_node t)];
       El "p" [] (text_node d)] /\
    elements_of kids
    = [El "div" [("style", "font-size:20px;")] [Txt "▶ Video"];
       El "a" [("href", su); ("target", "_blank");
               ("rel", "noopener noreferrer"); ("style", watch_link_style)]
          [Txt "Watch video"]] /\
    flat_map Page.anchors tree
    = [[("href", su); ("target", "_blank");
        ("rel", "noopener noreferrer"); ("style", watch_link_style)]].
Proof.
  intros Hsu Ht Hd. unfold video_placeholder_card.
  card_dom (video_placeholder_parts su).
Qed.

Lemma unsupported_card_dom mt t d :
  inert mt = true -> inert t = true -> inert d = true ->
  exists tree,
    parse (unsupported_card mt t d) = Some tree /\
    elements_of tree
    = [El "p" [] [Txt ("Unsupported media type: " +:+ mt)];
       El "p" [] [El "strong" [] (text_node t)];
       El "p" [] (text_node d)] /\
    flat_map Page.anchors tree = [].
Proof.
  intros Hmt Ht Hd. unfold unsupported_card.
  card_dom (unsupported_parts mt).
Qed.

End HtmlFacts.

(** ** Strings *)

Module JsStringFacts.

Import JsString.

Lemma app_cons c s t : String c s +:+ t = String c (s +:+ t).
Proof. reflexivity. Qed.

Lemma app_nil s : "" +:+ s = s.
Proof. reflexivity. Qed.

Lemma strip_prefix_app p s rest :
  strip_prefix p s = Some rest -> s = p +:+ rest.
Proof.
  revert s; induction p as [|a p IH]; intros s; simpl.
  - intros [= <-]. reflexivity.
  - destruct s as [|b s]; [congruence|].
    destruct (Ascii.eqb_spec a b) as [->|]; [|congruence].
    intros H. rewrite app_cons, <- (IH _ H). reflexivity.
Qed.

Lemma strip_prefix_complete p rest : strip_prefix p (p +:+ rest) = Some rest.
Proof.
  induction p as [|a p IH]; [reflexivity|].
  rewrite app_cons. simpl. rewrite Ascii.eqb_refl. exact IH.
Qed.

(** The cut really cuts [s] around one occurrence of the separator. *)
Lemma cut_app sep s b a :
  cut sep s = Some (b, a) -> s = b +:+ sep +:+ a.
Proof.
  revert b a; induction s as [|c s IH]; intros b a; simpl.
  - destruct (strip_prefix sep "") as [rest|] eqn:E; [|congruence].
    intros [= <- <-]. apply strip_prefix_app in E. exact E.
  - destruct (strip_prefix sep (String c s)) as [rest|] eqn:E.
    + intros [= <- <-]. apply strip_prefix_app in E. exact E.
    + destruct (cut sep s) as [[b' a']|] eqn:E'; [|congruence].
      intros [= <- <-]. rewrite app_cons. f_equal. apply IH. reflexivity.
Qed.

(** Every occurrence is found: a string built around the separator is cut. *)
Lemma cut_complete sep b a : is_Some (cut sep (b +:+ sep +:+ a)).
Proof.
  induction b as [|c b IH].
  - rewrite app_nil. destruct sep as [|x sep]; [destruct a; simpl; eauto|].
    rewrite app_cons. simpl.
    rewrite Ascii.eqb_refl, strip_prefix_complete. eauto.
  - rewrite app_cons. simpl.
    destruct (strip_prefix sep (String c (b +:+ sep +:+ a))); [eauto|].
    destruct IH as [[b' a'] ->]. eauto.
Qed.

Lemma includes_iff s sep :
  includes s sep = true <-> exists b a, s = b +:+ sep +:+ a.
Proof.
  unfold includes. split.
  - destruct (cut sep s) as [[b a]|] eqn:E; [|discriminate].
    intros _. exists b, a. by apply cut_app.
  - intros (b & a & ->). by destruct (cut_complete sep b a) as [? ->].
Qed.

Lemma split_on_clause c sep s o (e : cut (String c sep) s = o) :
  split_on_unfold_clause_2 c sep s (exist _ o e) =
  match o with
  | Some (b, a) => b :: split_on (String c sep) a
  | None => [s]
  end.
Proof. destruct o as [[b a]|]; reflexivity. Qed.

(** One round of the splitting loop, for a separator that is not empty. *)
Lemma split_step c sep s :
  split s (String c sep) =
  match cut (String c sep) s with
  | Some (b, a) => b :: split a (String c sep)
  | None => [s]
  end.
Proof.
  unfold split. etrans; [apply split_on_equation_2|]. apply split_on_clause.
Qed.

(** The piece in front, [s.split(sep)[0]], always exists. *)
Lemma split_0 c sep s :
  split s (String c sep) !! 0 = Some (first_piece s (String c sep)).
Proof.
  rewrite split_step. unfold first_piece.
  by destruct (cut (String c sep) s) as [[b a]|].
Qed.

(** The piece after the first occurrence, [s.split(sep)[1]], exists exactly
    when the separator occurs. *)
Lemma split_1_some c sep s b a :
  cut (String c sep) s = Some (b, a) ->
  split s (String c sep) !! 1 = Some (first_piece a (String c sep)).
Proof.
  intros E. rewrite split_step, E. simpl. apply split_0.
Qed.

Lemma split_1_none c sep s :
  cut (String c sep) s = None -> split s (String c sep) !! 1 = None.
Proof. intros E. by rewrite split_step, E. Qed.

Lemma split_1_includes c sep s :
  includes s (String c sep) = true -> is_Some (split s (String c sep) !! 1).
Proof.
  unfold includes. destruct (cut (String c sep) s) as [[b a]|] eqn:E; [|done].
  intros _. rewrite (split_1_some _ _ _ _ _ E). eauto.
Qed.

End JsStringFacts.

Example split_demo1 :
  JsString.split "https://www.youtube.com/embed/abc123?rel=0" "/embed/"
  = ["https://www.youtube.com"; "abc123?rel=0"].
Proof. reflexivity. Qed.

Example split_demo2 : JsString.split "a,b,,c" "," = ["a"; "b"; ""; "c"].
Proof. reflexivity. Qed.

Example split_demo3 : JsString.split "" "," = [""].
Proof. reflexivity. Qed.

Example split_demo4 : JsString.split "aaa" "aa" = [""; "a"].
Proof. reflexivity. Qed.

(** ** Media resolver *)

Module ResolverFacts.

Import JsString JsStringFacts Resolver.

(** With a marker that occurs, the identifier is the text after its first
    occurrence, up to the next marker or delimiter. *)
Lemma extract_id_cut c m d dl s b a :
  cut (String c m) s = Some (b, a) ->
  extract_id s (String c m) (String d dl)
  = Normal (first_piece (first_piece a (String c m)) (String d dl)).
Proof.
  intros E. unfold extract_id.
  by rewrite (split_1_some _ _ _ _ _ E), split_0.
Qed.

Lemma extract_id_includes c m d dl s :
  includes s (String c m) = true ->
  exists id, extract_id s (String c m) (String d dl) = Normal id.
Proof.
  unfold includes. destruct (cut (String c m) s) as [[b a]|] eqn:E; [|done].
  intros _. eexists. eapply extract_id_cut, E.
Qed.

(** Without the marker, [split(marker)[1]] is [undefined] and the chained
    call throws: the script never reaches this, it tests [includes] first. *)
Lemma extract_id_missing c m delim s :
  includes s (String c m) = false ->
  extract_id s (String c m) delim = Throw TypeError.
Proof.
  unfold includes. destruct (cut (String c m) s) as [[b a]|] eqn:E; [done|].
  intros _. unfold extract_id. by rewrite (split_1_none _ _ _ E).
Qed.

Lemma resolve_try_normal u t : exists r, resolve_try u t = Normal r.
Proof.
  unfold resolve_try.
  destruct (includes u "/embed/") eqn:E1.
  { destruct (extract_id_includes _ _ _ _ _ E1
      : exists id, extract_id u "/embed/" "?" = Normal id) as [id ->]. eauto. }
  destruct (includes u "watch?v=") eqn:E2.
  { destruct (extract_id_includes _ _ _ _ _ E2
      : exists id, extract_id u "watch?v=" "&" = Normal id) as [id ->]. eauto. }
  destruct (includes u "youtu.be/") eqn:E3.
  { destruct (extract_id_includes _ _ _ _ _ E3
      : exists id, extract_id u "youtu.be/" "?" = Normal id) as [id ->]. eauto. }
  eauto.
Qed.

Lemma resolve_unrecognized u t :
  GalleryView.recognizable u = false -> resolve u t = (u, t).
Proof.
  unfold GalleryView.recognizable, resolve, resolve_try.
  intros H. apply orb_false_iff in H as [H H3].
  apply orb_false_iff in H as [H1 H2]. by rewrite H1, H2, H3.
Qed.

(** A thumbnail that is there stays. *)
Lemma resolve_keeps_thumb u c t : (resolve u (String c t)).2 = String c t.
Proof.
  unfold resolve, resolve_try.
  repeat match goal with
         | |- context [if ?b then _ else _] => destruct b
         | |- context [match extract_id ?s ?m ?d with _ => _ end] =>
             destruct (extract_id s m d)
         end; reflexivity.
Qed.

End ResolverFacts.

(** ** Modal controller *)

Module ModalFacts.

Import Modal ModalView.

Lemma media_type_is_spec item t :
  media_type_is item t = true <-> item !! "media_type" = Some t.
Proof. unfold media_type_is. apply bool_decide_eq_true. Qed.

Lemma media_type_is_other item t t' :
  media_type_is item t = true -> t <> t' -> media_type_is item t' = false.
Proof.
  intros H Hne. apply media_type_is_spec in H.
  apply bool_decide_eq_false. rewrite H. congruence.
Qed.

Lemma truthy_or_else v d : truthy v = true -> Some (or_else v d) = v.
Proof. by destruct v as [[|c s]|]. Qed.

Lemma truthy_false_or_else v d : truthy v = false -> or_else v d = d.
Proof. by destruct v as [[|c s]|]. Qed.

(** The emptying loop leaves no child. *)
Lemma remove_children_nil kids : remove_children kids = [].
Proof. induction kids as [|k kids IH]; [reflexivity | exact IH]. Qed.

(** The nodes of the video branch do not involve the shared [imgEl]. *)
Lemma video_nodes_no_imgEl item : ImgEl ∉ video_nodes item.
Proof.
  unfold video_nodes.
  destruct (Resolver.resolve _ _) as [w [|c t]];
    intros H; repeat (apply elem_of_cons in H as [H|H]; [discriminate|]);
    by apply elem_of_nil in H.
Qed.

Lemma shown_without_imgEl src alt (l : list node) :
  ImgEl ∉ l ->
  (fun n => match n with ImgEl => Img src alt [] | _ => n end) <$> l = l.
Proof.
  induction l as [|n l IH]; [reflexivity|].
  intros H. apply not_elem_of_cons in H as [Hn Hl].
  rewrite fmap_cons, (IH Hl). by destruct n.
Qed.

(** What the media container holds after [openApodModal], whatever it held
    before. *)
Lemma children_open item d :
  children (openApodModal item d) =
  if media_type_is item "image" && truthy (item !! "hdurl") then [ImgEl]
  else if media_type_is item "image" && truthy (item !! "url") then [ImgEl]
  else if media_type_is item "video" && truthy (item !! "url") then
    video_nodes item
  else if media_type_is item "video" && truthy (item !! "thumbnail_url") then
    [Img (or_else (item !! "thumbnail_url") "")
         (or_else (item !! "title") "Video thumbnail") []]
  else [P "Media not available."].
Proof.
  unfold children, openApodModal, place_media.
  rewrite remove_children_nil.
  repeat match goal with
         | |- context [if ?b then _ else _] => destruct b
         end; reflexivity.
Qed.

(** The same, as displayed. *)
Lemma media_open item d :
  media (openApodModal item d) =
  if media_type_is item "image" && truthy (item !! "hdurl") then
    [Img (or_else (item !! "hdurl") (or_else (item !! "url") ""))
         (or_else (item !! "title") "APOD image") []]
  else if media_type_is item "image" && truthy (item !! "url") then
    [Img (or_else (item !! "url") "")
         (or_else (item !! "title") "APOD image") []]
  else if media_type_is item "video" && truthy (item !! "url") then
    video_nodes item
  else if media_type_is item "video" && truthy (item !! "thumbnail_url") then
    [Img (or_else (item !! "thumbnail_url") "")
         (or_else (item !! "title") "Video thumbnail") []]
  else [P "Media not available."].
Proof.
  unfold media, shown, openApodModal, place_media.
  rewrite remove_children_nil.
  destruct (media_type_is item "image" && truthy (item !! "hdurl")); [done|].
  destruct (media_type_is item "image" && truthy (item !! "url")); [done|].
  destruct (media_type_is item "video" && truthy (item !! "url")).
  { cbn [mediaWrap imgEl_src imgEl_alt app].
    apply shown_without_imgEl, video_nodes_no_imgEl. }
  by destruct (media_type_is item "video" && truthy (item !! "thumbnail_url")).
Qed.

End ModalFacts.

(** ** Gallery cards *)

Module GalleryFacts.

Import Gallery GalleryView ModalFacts.

Lemma or_else_media_type item t :
  media_type_is item t = true -> t <> "" ->
  or_else (item !! "media_type") "image" = t.
Proof.
  intros H Hne. apply media_type_is_spec in H. rewrite H.
  by destruct t.
Qed.

(** The texts a card splices, one by one. *)
Lemma inert_fields_spec item :
  inert_fields item = true ->
  Html.inert (or_else (item !! "title") "Untitled") = true /\
  Html.inert (or_else (item !! "date") "") = true /\
  Html.inert (or_else (item !! "media_type") "image") = true /\
  Html.inert (or_else (item !! "url") "") = true /\
  Html.inert (or_else (item !! "thumbnail_url") "") = true.
Proof.
  unfold inert_fields, spliced. cbn [forallb]. intros H.
  repeat (apply andb_true_iff in H as [? H]). by repeat split.
Qed.

(** The markup of the card of an image Record. *)
Lemma make_card_image item :
  or_else (item !! "media_type") "image" = "image" ->
  innerHTML (make_card item)
  = image_card (or_else (item !! "url") "")
               (or_else (item !! "title") "Untitled")
               (or_else (item !! "date") "").
Proof. intros H. unfold make_card, mediaHtml, image_card. cbn [innerHTML]. by rewrite H. Qed.

(** What the parser builds from it when the spliced texts are inert. *)
Lemma image_card_views item :
  innerHTML (make_card item)
  = image_card (or_else (item !! "url") "")
               (or_else (item !! "title") "Untitled")
               (or_else (item !! "date") "") ->
  inert_fields item = true ->
  card_variant (make_card item) = Some Image /\
  card_img_src (make_card item) = Some (or_else (item !! "url") "").
Proof.
  intros Hm Hin. destruct (inert_fields_spec _ Hin) as (Ht & Hd & _ & Hu & _).
  destruct (HtmlFacts.image_card_dom _ _ _ Hu Ht Hd) as (tree & Hp & He & _).
  unfold card_variant, card_img_src, card_media, card_tree.
  by rewrite Hm, Hp, He.
Qed.

(** The markup of the card of a video Record. *)
Lemma make_card_video item :
  or_else (item !! "media_type") "image" = "video" ->
  innerHTML (make_card item)
  = if truthy (item !! "thumbnail_url") then
      video_thumb_card (or_else (item !! "thumbnail_url") "")
                       (or_else (item !! "title") "Untitled")
                       (or_else (item !! "date") "")
    else
      video_placeholder_card (or_text (or_else (item !! "url") "") "#")
                             (or_else (item !! "title") "Untitled")
                             (or_else (item !! "date") "").
Proof.
  intros H. unfold make_card, mediaHtml, video_thumb_card, video_placeholder_card.
  cbn [innerHTML]. rewrite H. cbn [String.eqb Ascii.eqb Bool.eqb].
  by destruct (item !! "thumbnail_url") as [[|c t]|].
Qed.

Lemma inert_or_text s : Html.inert s = true -> Html.inert (or_text s "#") = true.
Proof. by destruct s. Qed.

(** The markup of the card of a Record with another media_type. *)
Lemma make_card_unsupported item mt :
  item !! "media_type" = Some mt ->
  mt <> "" -> mt <> "image" -> mt <> "video" ->
  innerHTML (make_card item)
  = unsupported_card mt (or_else (item !! "title") "Untitled")
                     (or_else (item !! "date") "").
Proof.
  intros Hmt Hne Hi Hv. unfold make_card, mediaHtml, unsupported_card.
  cbn [innerHTML]. rewrite Hmt. destruct mt as [|c mt]; [done|]. cbn [or_else].
  destruct (String.eqb_spec (String c mt) "image") as [|_]; [done|].
  by destruct (String.eqb_spec (String c mt) "video") as [|_].
Qed.

Lemma unsupported_card_message item mt :
  item !! "media_type" = Some mt -> mt <> "" ->
  innerHTML (make_card item)
  = unsupported_card mt (or_else (item !! "title") "Untitled")
                     (or_else (item !! "date") "") ->
  inert_fields item = true ->
  card_message (make_card item) = Some ("Unsupported media type: " +:+ mt).
Proof.
  intros Hmt Hne Hm Hin.
  destruct (inert_fields_spec _ Hin) as (Ht & Hd & Hty & _).
  rewrite Hmt in Hty. destruct mt as [|c mt]; [done|]. cbn [or_else] in Hty.
  destruct (HtmlFacts.unsupported_card_dom _ _ _ Hty Ht Hd) as (tree & Hp & He & _).
  unfold card_message, card_media, card_tree. rewrite Hm, Hp, He.
  cbn. by rewrite HtmlFacts.append_nil_r.
Qed.

(** Every card with inert texts parses to three elements: its media, the
    title paragraph and the date paragraph; its only possible link is the
    watch link of the video placeholder. *)
Lemma card_dom item :
  inert_fields item = true ->
  exists tree media,
    card_tree (make_card item) = Some tree /\
    Html.elements_of tree
    = [media;
       El "p" [] [El "strong" []
                    (Html.text_node (or_else (item !! "title") "Untitled"))];
       El "p" [] (Html.text_node (or_else (item !! "date") ""))] /\
    (flat_map Page.anchors tree = [] \/
     flat_map Page.anchors tree
     = [[("href", or_text (or_else (item !! "url") "") "#");
         ("target", "_blank"); ("rel", "noopener noreferrer");
         ("style", watch_link_style)]]).
Proof.
  intros Hin. destruct (inert_fields_spec _ Hin) as (Ht & Hd & Hty & Hu & Hth).
  unfold card_tree, make_card, mediaHtml. cbn [innerHTML].
  destruct (String.eqb _ "image").
  { destruct (HtmlFacts.image_card_dom _ _ _ Hu Ht Hd) as (tree & Hp & He & Ha).
    exists tree. eexists. split; [exact Hp|]. split; [exact He|]. by left. }
  destruct (String.eqb _ "video").
  - destruct (or_else (item !! "thumbnail_url") "") as [|c th] eqn:E.
    + destruct (HtmlFacts.video_placeholder_card_dom _ _ _ (inert_or_text _ Hu) Ht Hd)
        as (tree & kids & Hp & He & _ & Ha).
      exists tree. eexists. split; [exact Hp|]. split; [exact He|]. by right.
    + destruct (HtmlFacts.video_thumb_card_dom _ _ _ Hth Ht Hd)
        as (tree & kids & Hp & He & _ & Ha).
      exists tree. eexists. split; [exact Hp|]. split; [exact He|]. by left.
  - destruct (HtmlFacts.unsupported_card_dom _ _ _ Hty Ht Hd) as (tree & Hp & He & Ha).
    exists tree. eexists. split; [exact Hp|]. split; [exact He|]. by left.
Qed.

Lemma textContent_title t :
  Html.textContent (El "p" [] [El "strong" [] (Html.text_node t)]) = t.
Proof. destruct t; cbn; [done|]. by rewrite !HtmlFacts.append_nil_r. Qed.

Lemma textContent_date d : Html.textContent (El "p" [] (Html.text_node d)) = d.
Proof. destruct d; cbn; [done|]. by rewrite HtmlFacts.append_nil_r. Qed.

End GalleryFacts.

(** ** Claims about the modal *)

Section ModalClaims.

Import Modal ModalView ModalFacts.

(** C5: opening the modal on a Record [b] after a Record [a] leaves in the
    media container exactly the children, and shows exactly the media, that
    opening [b] on a page that never showed anything does: nothing of [a]
    remains. *)
Theorem C5_open_clears_previous_media (a b : Item) (d : doc) :
  children (openApodModal b (openApodModal a d))
  = children (openApodModal b (initial None)) /\
  media (openApodModal b (openApodModal a d))
  = media (openApodModal b (initial None)).
Proof.
  split.
  - by rewrite !children_open.
  - by rewrite !media_open.
Qed.

(** Closing from any state in which the modal exists gives a closed state. *)
Lemma closeApodModal_closed d :
  is_Some (_apodModal d) -> closed (closeApodModal d).
Proof.
  intros [m Hm]. unfold closed, closeApodModal. rewrite Hm. simpl.
  split; [|reflexivity]. eexists. split; [reflexivity|]. by split.
Qed.

Lemma closeApodModal_focus d el :
  is_Some (_apodModal d) ->
  _apodModalPrevActive d = Some el -> has_focus el = true ->
  activeElement (closeApodModal d) = Some el.
Proof.
  intros [m Hm] Hp Hf. unfold closeApodModal. rewrite Hm. simpl.
  by rewrite Hp, Hf.
Qed.

(** C6: from the state [openApodModal] leaves, a click whose target is the
    overlay itself, a click on the close control and the Escape key all lead
    to the one state [closeApodModal] computes (a click on the content box
    changes nothing); that state is closed (surface hidden, Escape listener
    removed, iframe source cleared), and the element that had the focus when
    the modal was opened has it again when it has a [focus] function. *)
Theorem C6_close_triggers_converge (item : Item) (d : doc) :
  let s := openApodModal item d in
  (dispatch (Click OnOverlay) s = closeApodModal s /\
   dispatch (Click OnCloseBtn) s = closeApodModal s /\
   dispatch (KeyDown "Escape") s = closeApodModal s /\
   dispatch (Click OnBox) s = s) /\
  closed (closeApodModal s) /\
  (forall el, activeElement d = Some el -> has_focus el = true ->
              activeElement (closeApodModal s) = Some el).
Proof.
  intros s. split; [|split].
  - subst s. unfold dispatch, openApodModal.
    destruct (place_media _ _ _) as [[src alt] kids]. by cbn.
  - apply closeApodModal_closed. subst s. unfold openApodModal.
    destruct (place_media _ _ _) as [[src alt] kids]. by eexists.
  - intros el Hel Hf. apply closeApodModal_focus; [| |done].
    + subst s. unfold openApodModal.
      destruct (place_media _ _ _) as [[src alt] kids]. by eexists.
    + subst s. unfold openApodModal.
      destruct (place_media _ _ _) as [[src alt] kids]. exact Hel.
Qed.

(** Membership in a list given by its elements. *)
Ltac member_here :=
  solve [repeat first [apply list_elem_of_here | apply list_elem_of_further]].

Ltac member_cases H :=
  repeat (apply elem_of_cons in H as [->|H]; [member_here|]);
  by apply elem_of_nil in H.

(** The texts the modal can put in its media container. *)
Lemma texts_open item d t :
  t ∈ texts (openApodModal item d) ->
  t ∈ ["Media not available."; "Video (no thumbnail available)";
       "This video will open on YouTube."; "Watch video on YouTube"].
Proof.
  unfold texts. rewrite media_open.
  repeat match goal with
         | |- context [if ?b then _ else _] => destruct b
         end; cbn; try (intros H; member_cases H).
  unfold video_nodes.
  destruct (Resolver.resolve _ _) as [w [|c u]]; cbn; intros H; member_cases H.
Qed.

(** C10: in the modal, a Record whose media_type is neither "image" nor
    "video", an image Record with neither hdurl nor url, and a video Record
    with neither url nor thumbnail_url all show the one paragraph "Media not
    available."; no text the modal shows starts with "Unsupported media
    type: ", while the markup of the gallery card of a Record with another
    media_type [mt] is the paragraph template "Unsupported media type: "
    with [mt] spliced in, which shows as that text when the texts the card
    splices are inert. *)
Theorem C10_modal_media_not_available (item : Item) (d : doc) :
  ((media_type_is item "image" = false /\ media_type_is item "video" = false) \/
   (media_type_is item "image" = true /\
    truthy (item !! "hdurl") = false /\ truthy (item !! "url") = false) \/
   (media_type_is item "video" = true /\
    truthy (item !! "url") = false /\ truthy (item !! "thumbnail_url") = false) ->
   media (openApodModal item d) = [P "Media not available."]) /\
  (forall t, t ∈ texts (openApodModal item d) ->
             String.prefix "Unsupported media type: " t = false) /\
  (forall mt, item !! "media_type" = Some mt ->
              mt <> "" -> mt <> "image" -> mt <> "video" ->
              Gallery.innerHTML (Gallery.make_card item)
              = GalleryView.unsupported_card mt
                  (or_else (item !! "title") "Untitled")
                  (or_else (item !! "date") "") /\
              (GalleryView.inert_fields item = true ->
               GalleryView.card_message (Gallery.make_card item)
               = Some ("Unsupported media type: " +:+ mt))).
Proof.
  split; [|split].
  - rewrite media_open.
    intros [[Hi Hv]|[(Hi & Hh & Hu)|(Hv & Hu & Ht)]].
    + by rewrite Hi, Hv.
    + rewrite (media_type_is_other _ _ "video" Hi) by done.
      by rewrite Hi, Hh, Hu.
    + rewrite (media_type_is_other _ _ "image" Hv) by done.
      by rewrite Hv, Hu, Ht.
  - intros t Ht. apply texts_open in Ht.
    repeat (apply elem_of_cons in Ht as [->|Ht]; [reflexivity|]).
    by apply elem_of_nil in Ht.
  - intros mt Hmt Hne Hi Hv.
    pose proof (GalleryFacts.make_card_unsupported _ _ Hmt Hne Hi Hv) as Hm.
    split; [exact Hm|]. by apply GalleryFacts.unsupported_card_message.
Qed.

End ModalClaims.

(** ** Claims about the media resolver *)

Section ResolverClaims.

Import JsString Resolver ResolverFacts Modal ModalView ModalFacts.

Lemma resolve_embed u t :
  includes u "/embed/" = true ->
  exists id, extract_id u "/embed/" "?" = Normal id /\
             resolve u t = (watch_of id, keep_or t (thumb_of id)).
Proof.
  intros E.
  destruct (extract_id_includes _ _ _ _ _ E
            : exists id, extract_id u "/embed/" "?" = Normal id) as [id Hid].
  exists id. split; [done|]. unfold resolve, resolve_try. by rewrite E, Hid.
Qed.

Lemma resolve_watch u t :
  includes u "/embed/" = false -> includes u "watch?v=" = true ->
  exists id, extract_id u "watch?v=" "&" = Normal id /\
             resolve u t = (u, keep_or t (thumb_of id)).
Proof.
  intros E1 E.
  destruct (extract_id_includes _ _ _ _ _ E
            : exists id, extract_id u "watch?v=" "&" = Normal id) as [id Hid].
  exists id. split; [done|]. unfold resolve, resolve_try. by rewrite E1, E, Hid.
Qed.

Lemma resolve_short u t :
  includes u "/embed/" = false -> includes u "watch?v=" = false ->
  includes u "youtu.be/" = true ->
  exists id, extract_id u "youtu.be/" "?" = Normal id /\
             resolve u t = (watch_of id, keep_or t (thumb_of id)).
Proof.
  intros E1 E2 E.
  destruct (extract_id_includes _ _ _ _ _ E
            : exists id, extract_id u "youtu.be/" "?" = Normal id) as [id Hid].
  exists id. split; [done|].
  unfold resolve, resolve_try. by rewrite E1, E2, E, Hid.
Qed.

(** The link and the picture the modal shows for a video with a url, from
    what the resolver returned. *)
Lemma links_of_video item d c u w t :
  media_type_is item "video" = true -> item !! "url" = Some (String c u) ->
  resolve (String c u) (or_else (item !! "thumbnail_url") "") = (w, t) ->
  watch_link (openApodModal item d) = Some (or_text w (String c u)) /\
  picture (openApodModal item d)
  = match t with EmptyString => None | String _ _ => Some t end.
Proof.
  intros Hv Hu Hr. unfold watch_link, picture. rewrite media_open.
  rewrite (media_type_is_other _ _ "image" Hv) by done.
  rewrite Hv, Hu. cbn [andb truthy]. unfold video_nodes.
  rewrite Hu. cbn [or_else]. rewrite Hr.
  by destruct t.
Qed.

(** The thumbnail after the [if (!thumbUrl)] assignment, in terms of the
    Record. *)
Lemma kept_thumbnail (item : Item) id :
  let kept := keep_or (or_else (item !! "thumbnail_url") "") (thumb_of id) in
  match kept with
  | EmptyString => None
  | String _ _ => Some kept
  end
  = if truthy (item !! "thumbnail_url") then item !! "thumbnail_url"
    else Some (thumb_of id).
Proof. by destruct (item !! "thumbnail_url") as [[|c t]|]. Qed.

(** C1 (amended): for a video Record with url [u], the three shapes are
    tried in the order embed, watch, short; the identifier is
    [u.split(marker)[1].split(delimiter)[0]]; for the embed and short shapes
    the watch link is the canonical watch address of the identifier, for the
    watch shape it is [u] itself; in all three the picture is thumbnail_url
    when the Record has one and the canonical thumbnail of the identifier
    otherwise. *)
Theorem C1_video_links_by_shape (item : Item) (d : doc) (u : string) :
  media_type_is item "video" = true -> item !! "url" = Some u ->
  let s := openApodModal item d in
  let thumb id := if truthy (item !! "thumbnail_url")
                  then item !! "thumbnail_url" else Some (thumb_of id) in
  (includes u "/embed/" = true ->
   exists id, extract_id u "/embed/" "?" = Normal id /\
              watch_link s = Some (watch_of id) /\ picture s = thumb id) /\
  (includes u "/embed/" = false -> includes u "watch?v=" = true ->
   exists id, extract_id u "watch?v=" "&" = Normal id /\
              watch_link s = Some u /\ picture s = thumb id) /\
  (includes u "/embed/" = false -> includes u "watch?v=" = false ->
   includes u "youtu.be/" = true ->
   exists id, extract_id u "youtu.be/" "?" = Normal id /\
              watch_link s = Some (watch_of id) /\ picture s = thumb id).
Proof.
  intros Hv Hu s thumb. subst s thumb.
  destruct u as [|c u].
  { repeat split; intros; discriminate. }
  split; [|split].
  - intros E.
    destruct (resolve_embed _ (or_else (item !! "thumbnail_url") "") E)
      as (id & Hid & Hr).
    destruct (links_of_video _ d _ _ _ _ Hv Hu Hr) as [-> ->].
    exists id. split; [done|]. split; [done|]. apply kept_thumbnail.
  - intros E1 E.
    destruct (resolve_watch _ (or_else (item !! "thumbnail_url") "") E1 E)
      as (id & Hid & Hr).
    destruct (links_of_video _ d _ _ _ _ Hv Hu Hr) as [-> ->].
    exists id. split; [done|]. split; [done|]. apply kept_thumbnail.
  - intros E1 E2 E.
    destruct (resolve_short _ (or_else (item !! "thumbnail_url") "") E1 E2 E)
      as (id & Hid & Hr).
    destruct (links_of_video _ d _ _ _ _ Hv Hu Hr) as [-> ->].
    exists id. split; [done|]. split; [done|]. apply kept_thumbnail.
Qed.

(** C4: on every url text and every thumbnail text, the body of the [try]
    completes normally and [resolve] returns its result; a url with none of
    the three markers comes back with the thumbnail as they were given; were
    the body to throw, the [catch] would return them as given too.  In the
    modal, a video Record with such a url gets that url as its watch link
    and its own thumbnail_url, if any, as its picture. *)
Theorem C4_resolve_total (u t : string) :
  (exists r, resolve_try u t = Normal r /\ resolve u t = r) /\
  (GalleryView.recognizable u = false -> resolve u t = (u, t)) /\
  (forall e, resolve_try u t = Throw e -> resolve u t = (u, t)) /\
  (forall (item : Item) (d : doc),
     media_type_is item "video" = true -> item !! "url" = Some u ->
     or_else (item !! "thumbnail_url") "" = t ->
     truthy (Some u) = true -> GalleryView.recognizable u = false ->
     watch_link (openApodModal item d) = Some u /\
     picture (openApodModal item d)
     = if truthy (item !! "thumbnail_url") then item !! "thumbnail_url"
       else None).
Proof.
  split; [|split; [|split]].
  - destruct (resolve_try_normal u t) as [r Hr].
    exists r. split; [done|]. unfold resolve. by rewrite Hr.
  - apply resolve_unrecognized.
  - intros e He. unfold resolve. by rewrite He.
  - intros item d Hv Hu Ht Hne Hun. destruct u as [|c u]; [done|].
    pose proof (resolve_unrecognized _ t Hun) as Hr. rewrite <- Ht in Hr.
    destruct (links_of_video _ d _ _ _ _ Hv Hu Hr) as [-> ->].
    split; [done|]. by destruct (item !! "thumbnail_url") as [[|c' t']|].
Qed.

End ResolverClaims.

(** ** Claims about the gallery renderer *)

Section GalleryClaims.

Import Gallery GalleryView ModalFacts GalleryFacts.

(** C2 (amended): for an image Record the modal shows [hdurl] when it is
    present and otherwise [url] when that is present; the markup of the
    gallery card is the image template with [url] (empty when missing)
    spliced in as the source, whatever [hdurl] is; and when the texts the
    card splices are inert (no [<], [&], double quote, CR or NUL), the
    card's element is an [img] whose source is exactly [url]. *)
Theorem C2_image_display_url (item : Item) (d : Modal.doc) :
  media_type_is item "image" = true ->
  (truthy (item !! "hdurl") = true ->
   ModalView.picture (Modal.openApodModal item d) = item !! "hdurl") /\
  (truthy (item !! "hdurl") = false -> truthy (item !! "url") = true ->
   ModalView.picture (Modal.openApodModal item d) = item !! "url") /\
  innerHTML (make_card item)
  = image_card (or_else (item !! "url") "")
               (or_else (item !! "title") "Untitled")
               (or_else (item !! "date") "") /\
  (inert_fields item = true ->
   card_variant (make_card item) = Some Image /\
   card_img_src (make_card item) = Some (or_else (item !! "url") "")).
Proof.
  intros Hi.
  assert (innerHTML (make_card item)
          = image_card (or_else (item !! "url") "")
                       (or_else (item !! "title") "Untitled")
                       (or_else (item !! "date") "")) as Hm
    by (by apply make_card_image, or_else_media_type).
  split; [|split; [|split]].
  - intros Hh. unfold ModalView.picture. rewrite media_open, Hi, Hh. cbn.
    by destruct (item !! "hdurl") as [[|c h]|].
  - intros Hh Hu. unfold ModalView.picture. rewrite media_open, Hi, Hh, Hu. cbn.
    by destruct (item !! "url") as [[|c h]|].
  - exact Hm.
  - by apply image_card_views.
Qed.

(** C3 (amended): the markup of the card of a video Record is the
    thumbnail-with-overlay template exactly when the Record has a
    thumbnail_url, and the placeholder-with-link template otherwise; the
    renderer derives nothing from url.  When the texts the card splices are
    inert, the card's element is accordingly the thumbnail box (an image
    with that thumbnail_url as source, and the play overlay) or the
    placeholder box with its link. *)
Theorem C3_video_card_variant (item : Item) :
  media_type_is item "video" = true ->
  innerHTML (make_card item)
  = (if truthy (item !! "thumbnail_url") then
       video_thumb_card (or_else (item !! "thumbnail_url") "")
                        (or_else (item !! "title") "Untitled")
                        (or_else (item !! "date") "")
     else
       video_placeholder_card (or_text (or_else (item !! "url") "") "#")
                              (or_else (item !! "title") "Untitled")
                              (or_else (item !! "date") "")) /\
  (inert_fields item = true ->
   card_variant (make_card item)
   = Some (if truthy (item !! "thumbnail_url") then VideoWithThumbnail
           else VideoNoThumbnail) /\
   card_img_src (make_card item)
   = (if truthy (item !! "thumbnail_url") then item !! "thumbnail_url"
      else None)).
Proof.
  intros Hv.
  pose proof (make_card_video item (or_else_media_type _ _ Hv ltac:(done))) as Hm.
  split; [exact Hm|]. intros Hin.
  destruct (inert_fields_spec _ Hin) as (Ht & Hd & _ & Hu & Hth).
  unfold card_variant, card_img_src, card_media, card_tree. rewrite Hm.
  destruct (truthy (item !! "thumbnail_url")) eqn:E.
  - destruct (HtmlFacts.video_thumb_card_dom _ _ _ Hth Ht Hd)
      as (tree & kids & Hp & He & Hk & _).
    rewrite Hp, He. cbn [head variant_of img_src attr String.eqb Ascii.eqb Bool.eqb].
    rewrite Hk. split; [reflexivity|].
    cbn. by apply truthy_or_else.
  - destruct (HtmlFacts.video_placeholder_card_dom _ _ _ (inert_or_text _ Hu) Ht Hd)
      as (tree & kids & Hp & He & Hk & _).
    rewrite Hp, He. cbn [head variant_of img_src attr String.eqb Ascii.eqb Bool.eqb].
    rewrite Hk. by split.
Qed.

(** C9: a Record whose media_type is missing or empty is rendered with the
    image template, its url spliced in as the source, not with the
    unsupported-type paragraph; when the texts the card splices are inert,
    the card's element is an [img] whose source is its url. *)
Theorem C9_missing_media_type_is_image (item : Item) :
  truthy (item !! "media_type") = false ->
  innerHTML (make_card item)
  = image_card (or_else (item !! "url") "")
               (or_else (item !! "title") "Untitled")
               (or_else (item !! "date") "") /\
  (inert_fields item = true ->
   card_variant (make_card item) = Some Image /\
   card_variant (make_card item) <> Some Unsupported /\
   card_img_src (make_card item) = Some (or_else (item !! "url") "")).
Proof.
  intros H.
  assert (or_else (item !! "media_type") "image" = "image") as Hm
    by (by apply truthy_false_or_else).
  split; [by apply make_card_image|]. intros Hin.
  destruct (image_card_views _ (make_card_image _ Hm) Hin) as [Hv Hs].
  rewrite Hv. by repeat split.
Qed.

(** C7: when the input is not an array, or is the empty array,
    [renderGallery] completes normally and the gallery holds the "No items
    found." placeholder alone: one placeholder, no card. *)
Theorem C7_no_items_placeholder (items : value) (g : list child) :
  isArray items = false \/ items = VArray [] ->
  exists g', renderGallery items g = (g', Normal tt) /\
             g' = Parsed <$> no_items_placeholder /\
             count is_placeholder g' = 1 /\
             count is_card g' = 0 /\
             placeholder_text <$> g' = [Some "No items found."].
Proof.
  intros H. exists (Parsed <$> no_items_placeholder).
  split; [|by vm_compute].
  unfold renderGallery. destruct H as [-> | ->]; reflexivity.
Qed.

End GalleryClaims.

(** ** Claims about the trigger control *)

Section FeedClaims.

Import Gallery GalleryView Feed.

(** C8: when the fetch has settled, with data or with a failure, the trigger
    control is enabled again and carries its default label; when the fetch
    failed, and also when rendering threw, the gallery holds the error
    placeholder alone, with no card. *)
Theorem C8_trigger_restored (net : exchange) (p : page) :
  let p' := click_handler net p in
  (disabled p' = false /\ textContent p' = "Fetch Space Images") /\
  (forall e, (fetchApodData net (click_pending p)).2 = Throw e ->
             gallery p' = Parsed <$> error_placeholder /\
             count is_card (gallery p') = 0) /\
  (forall e, (click_try net (click_pending p)).2 = Throw e ->
             gallery p' = Parsed <$> error_placeholder).
Proof.
  intros p'. subst p'. unfold click_handler, click_settled.
  split; [|split].
  - destruct (click_try net (click_pending p)) as [q [u|e]]; by cbn.
  - intros e. unfold click_try.
    destruct (fetchApodData net (click_pending p)) as [q [v|e']]; [done|].
    by cbn.
  - intros e. destruct (click_try net (click_pending p)) as [q [u|e']]; [done|].
    by cbn.
Qed.

End FeedClaims.

(** ** The claims at sample Records *)

Section Instances.

Import JsString Resolver Gallery GalleryView Modal ModalView Feed Samples.

(** The spec's end-to-end examples. *)
Example m1_end_to_end :
  let p := click_handler (Responded true 200 (Some (VArray [VObject m1]))) idle in
  (fun k => Html.elements_of <$> card_tree k)
    <$> omap (fun c => match c with CardEl k => Some k | _ => None end)
             (gallery p)
  = [Some [El "img" [("src", "http://x/m1.jpg"); ("alt", "M1")] [];
           El "p" [] [El "strong" [] [Txt "M1"]];
           El "p" [] [Txt "2024-01-01"]]] /\
  count is_card (gallery p) = 1 /\
  disabled p = false /\
  let d := openApodModal m1 (initial (Some card0)) in
  (titleEl <$> _apodModal d) = Some "M1" /\
  (dateEl <$> _apodModal d) = Some "2024-01-01" /\
  picture d = Some "http://x/m1.jpg".
Proof. by vm_compute. Qed.

Example embed_end_to_end :
  let d := openApodModal embed_video (initial None) in
  watch_link d = Some "https://www.youtube.com/watch?v=abc123" /\
  picture d = Some "https://img.youtube.com/vi/abc123/hqdefault.jpg".
Proof. by vm_compute. Qed.

(** A marker followed by nothing is still a recognized shape: the identifier
    is the empty text and the links are derived from it. *)
Example empty_identifier_is_derived :
  resolve "https://youtu.be/" ""
  = ("https://www.youtube.com/watch?v=", "https://img.youtube.com/vi//hqdefault.jpg").
Proof. by vm_compute. Qed.

(** A rendering that throws part-way (a [null] entry after a good one) ends
    with the error placeholder and the control enabled. *)
Example null_entry_shows_error :
  let p := click_handler
             (Responded true 200 (Some (VArray [VObject m1; VNull]))) idle in
  gallery p = Parsed <$> error_placeholder /\
  disabled p = false /\ textContent p = "Fetch Space Images".
Proof. by vm_compute. Qed.

(** Markup in a title is parsed as markup in the card and printed as text
    in the modal: without inert texts the two differ, and a link from the
    title has no [target] and no [rel]. *)
Example title_markup_is_parsed :
  Page.card_title (make_card {[ "title" := "<span>y</span>" ]}) = Some "y" /\
  (titleEl <$> _apodModal (openApodModal {[ "title" := "<span>y</span>" ]}
                                         (initial None)))
  = Some "<span>y</span>" /\
  Page.card_anchors (make_card {[ "title" := "<a>y</a>" ]}) = [[]].
Proof. by vm_compute. Qed.

(** C1 as stated fails: a watch link on another host is kept as it is, so
    the modal's link is not the canonical watch address of any
    identifier. *)
Lemma C1_counterexample :
  media_type_is mobile_video "video" = true /\
  includes "https://m.youtube.com/watch?v=abc123" "watch?v=" = true /\
  extract_id "https://m.youtube.com/watch?v=abc123" "watch?v=" "&"
  = Normal "abc123" /\
  watch_link (openApodModal mobile_video (initial None))
  = Some "https://m.youtube.com/watch?v=abc123" /\
  ~ (exists id, watch_link (openApodModal mobile_video (initial None))
                = Some (watch_of id)).
Proof.
  split; [by vm_compute|]. split; [by vm_compute|].
  split; [by vm_compute|]. split; [by vm_compute|].
  intros [id H]. vm_compute in H. discriminate H.
Qed.

Lemma C1_witness :
  media_type_is short_video "video" = true /\
  short_video !! "url" = Some "https://youtu.be/abc123?t=5" /\
  exists id, extract_id "https://youtu.be/abc123?t=5" "youtu.be/" "?" = Normal id /\
             watch_link (openApodModal short_video (initial None))
             = Some (watch_of id) /\
             picture (openApodModal short_video (initial None))
             = Some "http://x/thumb.jpg".
Proof.
  split; [by vm_compute|]. split; [by vm_compute|].
  pose proof (C1_video_links_by_shape short_video (initial None)
                "https://youtu.be/abc123?t=5") as H.
  destruct H as (_ & _ & H); [by vm_compute | by vm_compute |].
  apply H; by vm_compute.
Defined.

(** C2 as stated fails: the gallery card of an image Record with an hdurl
    shows its url. *)
Lemma C2_counterexample :
  media_type_is m1_hd "image" = true /\
  truthy (m1_hd !! "hdurl") = true /\
  display_url m1_hd = "http://x/m1_hd.jpg" /\
  card_img_src (make_card m1_hd) = Some "http://x/m1.jpg" /\
  card_img_src (make_card m1_hd) <> Some (display_url m1_hd).
Proof.
  split; [by vm_compute|]. split; [by vm_compute|].
  split; [by vm_compute|]. split; [by vm_compute|].
  vm_compute. discriminate.
Qed.

Lemma C2_witness :
  media_type_is m1_hd "image" = true /\
  truthy (m1_hd !! "hdurl") = true /\
  inert_fields m1_hd = true /\
  picture (openApodModal m1_hd (initial None)) = m1_hd !! "hdurl" /\
  card_img_src (make_card m1_hd) = Some (or_else (m1_hd !! "url") "").
Proof.
  split; [by vm_compute|]. split; [by vm_compute|]. split; [by vm_compute|].
  pose proof (C2_image_display_url m1_hd (initial None)) as H.
  destruct H as (H & _ & _ & H'); [by vm_compute|].
  split; [apply H; by vm_compute |]. apply H'. by vm_compute.
Defined.

(** C3 as stated fails: a video Record with an embed link and no
    thumbnail_url has a thumbnail the modal derives, and still gets the
    placeholder card. *)
Lemma C3_counterexample :
  media_type_is embed_video "video" = true /\
  thumbnail_resolvable embed_video = true /\
  picture (openApodModal embed_video (initial None))
  = Some "https://img.youtube.com/vi/abc123/hqdefault.jpg" /\
  card_variant (make_card embed_video) = Some VideoNoThumbnail /\
  card_variant (make_card embed_video)
  <> Some (if thumbnail_resolvable embed_video then VideoWithThumbnail
           else VideoNoThumbnail).
Proof.
  split; [by vm_compute|]. split; [by vm_compute|].
  split; [by vm_compute|]. split; [by vm_compute|].
  vm_compute. discriminate.
Qed.

Lemma C3_witness :
  media_type_is short_video "video" = true /\
  inert_fields short_video = true /\
  card_variant (make_card short_video) = Some VideoWithThumbnail.
Proof.
  split; [by vm_compute|]. split; [by vm_compute|].
  destruct (C3_video_card_variant short_video) as [_ H]; [by vm_compute|].
  destruct H as [H _]; [by vm_compute|]. exact H.
Defined.

Lemma C4_witness :
  recognizable "https://vimeo.com/12345" = false /\
  resolve "https://vimeo.com/12345" "" = ("https://vimeo.com/12345", "") /\
  watch_link (openApodModal other_video (initial None))
  = Some "https://vimeo.com/12345".
Proof.
  split; [by vm_compute|].
  pose proof (C4_resolve_total "https://vimeo.com/12345" "") as (_ & H & _ & H').
  split; [apply H; by vm_compute|].
  apply (H' other_video (initial None)); by vm_compute.
Defined.

Lemma C6_witness :
  activeElement (initial (Some card0)) = Some card0 /\
  has_focus card0 = true /\
  activeElement (closeApodModal (openApodModal m1 (initial (Some card0))))
  = Some card0.
Proof.
  split; [reflexivity|]. split; [reflexivity|].
  pose proof (C6_close_triggers_converge m1 (initial (Some card0))) as (_ & _ & H).
  apply H; reflexivity.
Defined.

Lemma C7_witness :
  isArray VNull = false /\
  exists g', renderGallery VNull [] = (g', Normal tt) /\
             count is_placeholder g' = 1 /\ count is_card g' = 0.
Proof.
  split; [reflexivity|].
  destruct (C7_no_items_placeholder VNull []) as (g' & H1 & _ & H2 & H3 & _);
    [by left|].
  exists g'. by repeat split.
Defined.

Lemma C8_witness :
  (fetchApodData Rejected (click_pending idle)).2 = Throw TypeError /\
  gallery (click_handler Rejected idle) = Parsed <$> error_placeholder /\
  disabled (click_handler Rejected idle) = false.
Proof.
  split; [reflexivity|].
  pose proof (C8_trigger_restored Rejected idle) as ((H & _) & H' & _).
  split; [|exact H]. by apply (H' TypeError).
Defined.

Lemma C9_witness :
  truthy (untyped !! "media_type") = false /\
  inert_fields untyped = true /\
  card_variant (make_card untyped) = Some Image /\
  card_img_src (make_card untyped) = Some "http://x/m2.jpg".
Proof.
  split; [by vm_compute|]. split; [by vm_compute|].
  destruct (C9_missing_media_type_is_image untyped) as [_ H]; [by vm_compute|].
  destruct H as (H & _ & H'); [by vm_compute|].
  split; [exact H|]. rewrite H'. by vm_compute.
Defined.

Lemma C10_witness :
  (media_type_is audio "image" = false /\ media_type_is audio "video" = false) /\
  inert_fields audio = true /\
  media (openApodModal audio (initial None)) = [P "Media not available."] /\
  card_message (make_card audio) = Some "Unsupported media type: audio".
Proof.
  split; [by vm_compute|]. split; [by vm_compute|].
  pose proof (C10_modal_media_not_available audio (initial None)) as (H & _ & H').
  split; [apply H; left; by vm_compute|].
  destruct (H' "audio") as [_ Hm]; [by vm_compute..|].
  apply Hm. by vm_compute.
Defined.

End Instances.

(** * Further properties of the script *)

(** ** Leftmost occurrences *)

Module JsStringMore.

Import JsString JsStringFacts.

Lemma strip_prefix_app_r p s r t :
  strip_prefix p s = Some r -> strip_prefix p (s +:+ t) = Some (r +:+ t).
Proof.
  revert s; induction p as [|a p IH]; intros s; simpl.
  - by intros [= <-].
  - destruct s as [|b s]; [done|]. rewrite app_cons.
    destruct (Ascii.eqb a b); [apply IH | done].
Qed.

(** The occurrence [cut] finds is the leftmost: nothing before it matches. *)
Lemma cut_before_none c sep s b a :
  cut (String c sep) s = Some (b, a) -> cut (String c sep) b = None.
Proof.
  revert b a; induction s as [|x s IH]; intros b a.
  - simpl. by intros.
  - cbn [cut].
    destruct (strip_prefix (String c sep) (String x s)) as [rest|] eqn:E.
    { by intros [= <- <-]. }
    destruct (cut (String c sep) s) as [[b' a']|] eqn:E'; [|done].
    intros [= <- <-]. cbn [cut]. rewrite (IH _ _ eq_refl).
    destruct (strip_prefix (String c sep) (String x b')) as [r|] eqn:Eb; [|done].
    apply (strip_prefix_app_r _ _ _ (String c sep +:+ a')) in Eb.
    rewrite app_cons in Eb. rewrite <- (cut_app _ _ _ _ E') in Eb. congruence.
Qed.

Lemma first_piece_free c sep s :
  includes (first_piece s (String c sep)) (String c sep) = false.
Proof.
  unfold includes, first_piece.
  destruct (cut (String c sep) s) as [[b a]|] eqn:E.
  - by rewrite (cut_before_none _ _ _ _ _ E).
  - by rewrite E.
Qed.

Lemma first_piece_all s sep : includes s sep = false -> first_piece s sep = s.
Proof. unfold includes, first_piece. by destruct (cut sep s) as [[b a]|]. Qed.

(** With a separator of one code unit, the first occurrence after a text
    that has none is the one appended. *)
Lemma cut_unit_app d s q :
  includes s (String d "") = false ->
  cut (String d "") (s +:+ String d q) = Some (s, q).
Proof.
  unfold includes. induction s as [|x s IH].
  - intros _. rewrite app_nil. cbn. by rewrite Ascii.eqb_refl.
  - rewrite app_cons. cbn [cut strip_prefix].
    destruct (Ascii.eqb d x); [done|].
    destruct (cut (String d "") s) as [[b a]|] eqn:E; [done|].
    intros _. by rewrite IH.
Qed.

Lemma first_piece_unit_app d s q :
  includes s (String d "") = false ->
  first_piece (s +:+ String d q) (String d "") = s.
Proof. intros H. unfold first_piece. by rewrite (cut_unit_app _ _ _ H). Qed.

End JsStringMore.

(** ** The identifier and the canonical addresses *)

Section ResolverMore.

Import JsString JsStringFacts JsStringMore Resolver ResolverFacts.

Lemma extract_id_free c m d dl s id :
  extract_id s (String c m) (String d dl) = Normal id ->
  includes id (String d dl) = false.
Proof.
  unfold extract_id.
  destruct (split s (String c m) !! 1) as [segment|]; [|done].
  rewrite split_0. intros [= <-]. apply first_piece_free.
Qed.

(** X1: whatever the url, the identifier taken from it holds no delimiter:
    no "?" for the embed and short shapes, no "&" for the watch shape. *)
Theorem X1_identifier_has_no_delimiter (u id : string) :
  (extract_id u "/embed/" "?" = Normal id -> includes id "?" = false) /\
  (extract_id u "watch?v=" "&" = Normal id -> includes id "&" = false) /\
  (extract_id u "youtu.be/" "?" = Normal id -> includes id "?" = false).
Proof. repeat split; apply extract_id_free. Qed.

Lemma extract_id_after c m d dl s b a :
  cut (String c m) s = Some (b, a) ->
  includes a (String c m) = false ->
  extract_id s (String c m) (String d dl) = Normal (first_piece a (String d dl)).
Proof.
  intros E Ha. rewrite (extract_id_cut _ _ _ _ _ _ _ E).
  by rewrite (first_piece_all _ _ Ha).
Qed.

Lemma resolve_embed_tail tail t :
  includes tail "/embed/" = false ->
  resolve ("https://www.youtube.com/embed/" +:+ tail) t
  = (watch_of (first_piece tail "?"), keep_or t (thumb_of (first_piece tail "?"))).
Proof.
  intros H.
  assert (cut "/embed/" ("https://www.youtube.com/embed/" +:+ tail)
          = Some ("https://www.youtube.com", tail)) as E by reflexivity.
  pose proof (extract_id_after _ _ _ _ _ _ _ E H
              : extract_id _ "/embed/" "?" = _) as Hid.
  unfold resolve, resolve_try, includes. by rewrite E, Hid.
Qed.

(** X2: for the canonical embed address of an identifier, with or without a
    query after it, the resolver gives the canonical watch address and (when
    no thumbnail was supplied) the canonical thumbnail of exactly that
    identifier. *)
Theorem X2_embed_address_round_trip (id q t : string) :
  includes id "?" = false ->
  (includes id "/embed/" = false ->
   resolve ("https://www.youtube.com/embed/" +:+ id) t
   = (watch_of id, keep_or t (thumb_of id))) /\
  (includes (id +:+ "?" +:+ q) "/embed/" = false ->
   resolve ("https://www.youtube.com/embed/" +:+ id +:+ "?" +:+ q) t
   = (watch_of id, keep_or t (thumb_of id))).
Proof.
  intros Hq. split; intros He.
  - rewrite (resolve_embed_tail _ _ He). by rewrite (first_piece_all _ _ Hq).
  - rewrite (resolve_embed_tail _ _ He).
    by rewrite (first_piece_unit_app _ _ _ Hq
                : first_piece (id +:+ "?" +:+ q) "?" = id).
Qed.

Lemma resolve_watch_tail tail t :
  includes tail "/embed/" = false -> includes tail "watch?v=" = false ->
  resolve ("https://www.youtube.com/watch?v=" +:+ tail) t
  = ("https://www.youtube.com/watch?v=" +:+ tail,
     keep_or t (thumb_of (first_piece tail "&"))).
Proof.
  intros He Hw.
  assert (cut "watch?v=" ("https://www.youtube.com/watch?v=" +:+ tail)
          = Some ("https://www.youtube.com/", tail)) as E by reflexivity.
  pose proof (extract_id_after _ _ _ _ _ _ _ E Hw
              : extract_id _ "watch?v=" "&" = _) as Hid.
  assert (includes ("https://www.youtube.com/watch?v=" +:+ tail) "/embed/"
          = false) as E1.
  { unfold includes in *. cbv [String.append]. cbn [cut strip_prefix Ascii.eqb Bool.eqb].
    by destruct (cut "/embed/" tail). }
  unfold resolve, resolve_try. rewrite E1.
  unfold includes. by rewrite E, Hid.
Qed.

(** X3: a canonical watch address, with or without further parameters, is
    kept as the watch link as it stands, and the thumbnail derived for it is
    the canonical thumbnail of the identifier in front of the first "&". *)
Theorem X3_watch_address_is_kept (id q t : string) :
  includes id "&" = false ->
  (includes id "/embed/" = false -> includes id "watch?v=" = false ->
   resolve (watch_of id) t = (watch_of id, keep_or t (thumb_of id))) /\
  (includes (id +:+ "&" +:+ q) "/embed/" = false ->
   includes (id +:+ "&" +:+ q) "watch?v=" = false ->
   resolve (watch_of (id +:+ "&" +:+ q)) t
   = (watch_of (id +:+ "&" +:+ q), keep_or t (thumb_of id))).
Proof.
  intros Hq. unfold watch_of. split; intros He Hw.
  - rewrite (resolve_watch_tail _ _ He Hw). by rewrite (first_piece_all _ _ Hq).
  - rewrite (resolve_watch_tail _ _ He Hw).
    by rewrite (first_piece_unit_app _ _ _ Hq
                : first_piece (id +:+ "&" +:+ q) "&" = id).
Qed.

(** X4: a short link whose address holds neither of the other two markers
    resolves to the canonical watch address and thumbnail of the identifier
    that follows the host, the query after "?" being dropped. *)
Theorem X4_short_link_round_trip (id q t : string) :
  includes id "?" = false ->
  (includes ("https://youtu.be/" +:+ id) "/embed/" = false ->
   includes ("https://youtu.be/" +:+ id) "watch?v=" = false ->
   includes id "youtu.be/" = false ->
   resolve ("https://youtu.be/" +:+ id) t
   = (watch_of id, keep_or t (thumb_of id))) /\
  (includes ("https://youtu.be/" +:+ id +:+ "?" +:+ q) "/embed/" = false ->
   includes ("https://youtu.be/" +:+ id +:+ "?" +:+ q) "watch?v=" = false ->
   includes (id +:+ "?" +:+ q) "youtu.be/" = false ->
   resolve ("https://youtu.be/" +:+ id +:+ "?" +:+ q) t
   = (watch_of id, keep_or t (thumb_of id))).
Proof.
  intros Hq.
  assert (forall tail,
            includes ("https://youtu.be/" +:+ tail) "/embed/" = false ->
            includes ("https://youtu.be/" +:+ tail) "watch?v=" = false ->
            includes tail "youtu.be/" = false ->
            resolve ("https://youtu.be/" +:+ tail) t
            = (watch_of (first_piece tail "?"),
               keep_or t (thumb_of (first_piece tail "?")))) as Htail.
  { intros tail He Hw Hs.
    assert (cut "youtu.be/" ("https://youtu.be/" +:+ tail)
            = Some ("https://", tail)) as E by reflexivity.
    pose proof (extract_id_after _ _ _ _ _ _ _ E Hs
                : extract_id _ "youtu.be/" "?" = _) as Hid.
    unfold resolve, resolve_try. rewrite He, Hw.
    unfold includes. by rewrite E, Hid. }
  split; intros He Hw Hs.
  - rewrite (Htail _ He Hw Hs). by rewrite (first_piece_all _ _ Hq).
  - rewrite (Htail _ He Hw Hs).
    by rewrite (first_piece_unit_app _ _ _ Hq
                : first_piece (id +:+ "?" +:+ q) "?" = id).
Qed.

End ResolverMore.

(** ** Rendering a feed *)

Section GalleryMore.

Import Gallery GalleryView Page.

Lemma forEach_readable entries items rest g :
  readable entries items ->
  forEach (entries ++ rest) g = forEach rest (g ++ cards_of items).
Proof.
  intros H. revert g. induction H as [|v item entries items Hv _ IH]; intros g.
  - by rewrite app_nil_r.
  - cbn [app forEach]. rewrite Hv, IH. unfold cards_of.
    by rewrite fmap_cons, <- app_assoc.
Qed.

Lemma render_readable entries items g :
  readable entries items -> entries <> [] ->
  renderGallery (VArray entries) g = (cards_of items, Normal tt).
Proof.
  intros H Hne. unfold renderGallery. destruct entries as [|v entries]; [done|].
  cbn [isArray negb orb elements length Nat.eqb].
  rewrite <- (app_nil_r (v :: entries)).
  by rewrite (forEach_readable _ _ [] [] H).
Qed.

Lemma render_unreadable good rest items bad g :
  readable good items -> bad = VNull \/ bad = VUndefined ->
  renderGallery (VArray (good ++ bad :: rest)) g
  = (cards_of items, Throw TypeError).
Proof.
  intros H Hbad. unfold renderGallery. cbn [isArray negb orb elements].
  destruct (Nat.eqb_spec (length (good ++ bad :: rest)) 0) as [E|_].
  { rewrite length_app in E. cbn in E. lia. }
  rewrite (forEach_readable _ _ _ [] H). cbn [app forEach].
  by destruct Hbad as [-> | ->].
Qed.

Lemma render_no_items data g :
  isArray data = false \/ data = VArray [] ->
  renderGallery data g = (Parsed <$> no_items_placeholder, Normal tt).
Proof. unfold renderGallery. by intros [-> | ->]. Qed.

(** X5: a non-empty array whose entries can all be read is rendered as one
    card per entry, in feed order, each holding its Record, and nothing that
    was in the gallery before is left. *)
Theorem X5_one_card_per_entry (entries : list value) (items : list Item)
    (g : list child) :
  readable entries items -> entries <> [] ->
  renderGallery (VArray entries) g = (cards_of items, Normal tt) /\
  length (cards_of items) = length entries /\
  count is_card (cards_of items) = length entries /\
  count is_placeholder (cards_of items) = 0 /\
  omap (fun c => match c with CardEl k => Some (_apodItem k) | Parsed _ => None end)
       (cards_of items) = items.
Proof.
  intros H Hne. pose proof (Forall2_length _ _ _ H) as Hlen.
  split; [|split; [|split; [|split]]].
  - by apply render_readable.
  - unfold cards_of. by rewrite length_fmap.
  - rewrite Hlen. unfold count, cards_of. clear.
    induction items as [|i items IH]; [done|].
    rewrite fmap_cons, filter_cons_True by done. cbn. by rewrite IH.
  - unfold count, cards_of. clear.
    induction items as [|i items IH]; [done|].
    rewrite fmap_cons, filter_cons_False by done. exact IH.
  - unfold cards_of. clear. induction items as [|i items IH]; [done|].
    rewrite fmap_cons. cbn. by rewrite IH.
Qed.

(** X6: when the first entry that cannot be read ([null] or [undefined])
    comes after [k] readable ones, rendering throws a TypeError and leaves
    exactly the [k] cards of the entries before it; the entries after it are
    not looked at. *)
Theorem X6_unreadable_entry_stops_rendering (good rest : list value)
    (items : list Item) (bad : value) (g : list child) :
  readable good items -> bad = VNull \/ bad = VUndefined ->
  renderGallery (VArray (good ++ bad :: rest)) g
  = (cards_of items, Throw TypeError).
Proof.
  intros H Hbad. by apply render_unreadable.
Qed.

(** X7: when the texts a card splices are inert (no [<], [&], double
    quote, CR or NUL), the card's markup parses, and every link in it opens
    in a new browsing context with [noopener noreferrer] and has an address
    that is not empty ("#" stands in for a missing url). *)
Theorem X7_card_links_are_safe (item : Item) (attrs : list (string * string)) :
  inert_fields item = true ->
  is_Some (card_tree (make_card item)) /\
  (attrs ∈ card_anchors (make_card item) ->
   attr "target" attrs = Some "_blank" /\
   attr "rel" attrs = Some "noopener noreferrer" /\
   exists href, attr "href" attrs = Some href /\ href <> "").
Proof.
  intros Hin. destruct (GalleryFacts.card_dom _ Hin) as (tree & m & Hp & _ & Ha).
  unfold card_anchors. rewrite Hp. split; [by eexists|].
  destruct Ha as [-> | ->]; [by intros ?%elem_of_nil|].
  intros H. apply elem_of_cons in H as [->|H]; [|by apply elem_of_nil in H].
  cbn. repeat split. eexists. split; [reflexivity|].
  by destruct (or_else (item !! "url") "").
Qed.

End GalleryMore.

(** ** The modal over whole sessions *)

Section ModalMore.

Import Modal ModalView ModalFacts Page.

Lemma video_nodes_length item : length (video_nodes item) = 3.
Proof. unfold video_nodes. by destruct (Resolver.resolve _ _) as [w t]. Qed.

Lemma children_open_length item d :
  1 <= length (children (openApodModal item d)) <= 3.
Proof.
  rewrite children_open.
  repeat match goal with
         | |- context [if ?b then _ else _] => destruct b
         end; rewrite ?video_nodes_length; cbn; lia.
Qed.

Lemma kept_open item d : kept d -> kept (openApodModal item d).
Proof.
  intros [_ Hm]. pose proof (children_open_length item d) as Hlen.
  unfold children in Hlen. unfold kept, visible.
  unfold openApodModal in *.
  destruct (place_media _ _ _) as [[src alt] kids]. cbn in *.
  split; [done|]. intros m [= <-]. cbn. split; [by left|]. split; [done|].
  destruct (_apodModal d) as [m0|]; [|by left].
  by destruct (Hm m0 eq_refl) as (_ & _ & ?).
Qed.

Lemma kept_close d : kept d -> kept (closeApodModal d).
Proof.
  intros [Hv Hm]. unfold kept, visible, closeApodModal in *.
  destruct (_apodModal d) as [m0|] eqn:E; [|by rewrite E]. cbn.
  split; [done|]. intros m [= <-]. cbn.
  destruct (Hm m0 eq_refl) as (_ & ? & _). split; [by right|]. split; [done|].
  by right.
Qed.

Lemma kept_step a d : kept d -> kept (step a d).
Proof.
  intros H. destruct a as [item|key item|[t|key]|el]; cbn.
  - by apply kept_open.
  - unfold card_keydown_event.
    destruct (String.eqb key "Enter" || String.eqb key " "); [|done].
    by apply kept_open.
  - destruct (_apodModal d) as [m|] eqn:E; [|done].
    destruct t; cbn; [by apply kept_close | done | by apply kept_close].
  - destruct (keydown_listener d); [|done]. unfold _apodModalKeydown.
    destruct (String.eqb key "Escape"); [by apply kept_close | done].
  - exact H.
Qed.

(** X8: after any sequence of card activations, clicks and key presses on
    the modal, and focus moves, starting from a page whose modal was never
    opened, the Escape listener is registered exactly when the modal is
    shown, the media container holds between one and three children, and
    the iframe has never been given an address. *)
Theorem X8_session_invariant (trace : list action) (focus : option element) :
  let d := run trace (initial focus) in
  visible d = keydown_listener d /\
  forall m, _apodModal d = Some m ->
            (root_display m = "flex" \/ root_display m = "none") /\
            1 <= length (mediaWrap m) <= 3 /\
            (iframeEl_src m = None \/ iframeEl_src m = Some "").
Proof.
  intros d. subst d. change (kept (run trace (initial focus))).
  assert (kept (initial focus)) as H0 by (split; [done | by intros m]).
  revert H0. generalize (initial focus). unfold run.
  induction trace as [|a trace IH]; intros d0 H0; [done|].
  cbn [fold_left]. apply IH. by apply kept_step.
Qed.

(** X9: closing twice is the same as closing once, and once closed no click
    or key press on the modal changes anything. *)
Theorem X9_close_is_final (d : doc) (e : event) :
  closeApodModal (closeApodModal d) = closeApodModal d /\
  dispatch e (closeApodModal d) = closeApodModal d.
Proof.
  assert (closeApodModal (closeApodModal d) = closeApodModal d) as Hidem.
  { unfold closeApodModal. destruct (_apodModal d) as [m|] eqn:E; [|by rewrite E].
    cbn. destruct (_apodModalPrevActive d) as [el|]; [|done].
    by destruct (has_focus el) eqn:Hf; rewrite ?Hf. }
  split; [done|]. destruct e as [t|key]; cbn.
  - destruct (_apodModal (closeApodModal d)) eqn:E; [|done].
    destruct t; cbn; by rewrite ?Hidem.
  - destruct (keydown_listener (closeApodModal d)) eqn:E; [|done].
    unfold _apodModalKeydown. destruct (String.eqb key "Escape"); [|done].
    exact Hidem.
Qed.

(** X10: when nothing had the focus as the modal was opened, or the element
    that had it has no [focus] function, closing leaves the focus on the
    modal's close button. *)
Theorem X10_focus_stays_on_close_button (item : Item) (d : doc) :
  activeElement d = None \/
  (exists el, activeElement d = Some el /\ has_focus el = false) ->
  activeElement (closeApodModal (openApodModal item d)) = Some closeBtn.
Proof.
  intros H. unfold closeApodModal, openApodModal.
  destruct (place_media _ _ _) as [[src alt] kids]. cbn.
  destruct H as [-> | (el & -> & ->)]; reflexivity.
Qed.

Lemma or_text_nonempty w x : x <> "" -> or_text w x <> "".
Proof. by destruct w. Qed.

(** X11: the modal shows a watch link exactly for a video Record with a
    url; whatever the Record, every link it shows opens in a new browsing
    context with [noopener noreferrer] and has an address that is not
    empty. *)
Theorem X11_modal_links (item : Item) (d : doc) :
  (is_Some (watch_link (openApodModal item d)) <->
   media_type_is item "video" && truthy (item !! "url") = true) /\
  (forall href target rel,
     (href, target, rel) ∈ modal_anchors (openApodModal item d) ->
     target = "_blank" /\ rel = "noopener noreferrer" /\ href <> "").
Proof.
  unfold watch_link, modal_anchors. rewrite media_open.
  destruct (media_type_is item "video") eqn:Hv.
  - rewrite (media_type_is_other _ _ "image" Hv) by done. cbn [andb].
    destruct (truthy (item !! "url")) eqn:Hu.
    + unfold video_nodes. destruct (Resolver.resolve _ _) as [w t].
      split.
      * split; [done|]. intros _. destruct t; cbn; eauto.
      * assert (or_text w (or_else (item !! "url") "#") <> "") as Hne.
        { apply or_text_nonempty. by destruct (item !! "url") as [[|c u]|]. }
        intros href target rel H.
        destruct t; cbn in H;
          (apply elem_of_cons in H as [[= -> -> ->]|H];
           [done | by apply elem_of_nil in H]).
    + split; [|by destruct (truthy (item !! "thumbnail_url"));
                  intros ??? ?%elem_of_nil].
      destruct (truthy (item !! "thumbnail_url")); cbn;
        (split; [by intros [? [=]] | done]).
  - cbn [andb].
    split; [|by destruct (media_type_is item "image" && truthy (item !! "hdurl")),
                (media_type_is item "image" && truthy (item !! "url"));
              intros ??? ?%elem_of_nil].
    destruct (media_type_is item "image" && truthy (item !! "hdurl")),
      (media_type_is item "image" && truthy (item !! "url")); cbn;
      (split; [by intros [? [=]] | done]).
Qed.

End ModalMore.

(** ** One activation of the trigger control *)

Section FeedMore.

Import Gallery GalleryView Page Feed.

Lemma forEach_normal entries g g' u :
  forEach entries g = (g', Normal u) ->
  exists items, readable entries items /\ g' = g ++ cards_of items.
Proof.
  revert g; induction entries as [|v entries IH]; intros g.
  - cbn. intros [= <- _]. exists []. split; [constructor|]. by rewrite app_nil_r.
  - cbn [forEach]. destruct (fields v) as [item|e] eqn:Hv; [|done].
    intros H. destruct (IH _ H) as (items & Hr & ->).
    exists (item :: items). split; [by constructor|].
    unfold cards_of. by rewrite fmap_cons, <- app_assoc.
Qed.

Lemma cards_of_all_cards items : Forall (fun c => is_card c = true) (cards_of items).
Proof. unfold cards_of. induction items; constructor; done. Qed.

(** The handler on a response that carries parsed data. *)
Lemma click_handler_data status data p :
  click_handler (Responded true status (Some data)) p =
  let '(g, r) := renderGallery data (Parsed <$> loading_placeholder) in
  {| disabled := false;
     textContent := "Fetch Space Images";
     gallery := match r with
                | Normal _ => g
                | Throw _ => Parsed <$> error_placeholder
                end;
     fullData := Some data;
     console := console p |}.
Proof.
  unfold click_handler, click_settled, click_try. cbn.
  by destruct (renderGallery _ _) as [g [u|e]].
Qed.

(** X12: when the fetch fails (rejected, a status that is not ok, or a body
    that does not parse), the handler leaves the cached feed as it was and
    the console holds exactly one more entry, the error thrown; a status
    that is not ok fails even when the body would parse. *)
Theorem X12_failed_fetch_keeps_cache (net : exchange) (p : page) (e : exn) :
  (fetchApodData net (click_pending p)).2 = Throw e ->
  fullData (click_handler net p) = fullData p /\
  console (click_handler net p) = console p ++ [e] /\
  (net = Rejected /\ e = TypeError \/
   (exists status body, net = Responded false status body /\
                        e = NetworkError status) \/
   (exists status, net = Responded true status None /\ e = SyntaxError)).
Proof.
  destruct net as [|[|] status [data|]]; cbn; try done.
  - intros [= <-]. repeat split. by left.
  - intros [= <-]. repeat split. right; right. by exists status.
  - intros [= <-]. repeat split. right; left. by exists status, (Some data).
  - intros [= <-]. repeat split. right; left. by exists status, None.
Qed.

(** X13: when the feed is an array with an entry that cannot be read after
    some readable ones, the gallery ends with the error placeholder alone
    although the fetch succeeded: the cache holds the new feed, the console
    has no new entry, and the control is enabled again. *)
Theorem X13_unreadable_entry_shows_error (status : nat)
    (good rest : list value) (items : list Item) (bad : value) (p : page) :
  readable good items -> bad = VNull \/ bad = VUndefined ->
  let data := VArray (good ++ bad :: rest) in
  let p' := click_handler (Responded true status (Some data)) p in
  gallery p' = Parsed <$> error_placeholder /\
  fullData p' = Some data /\
  console p' = console p /\
  disabled p' = false /\ textContent p' = "Fetch Space Images".
Proof.
  intros Hr Hbad data p'. subst p'. rewrite click_handler_data. subst data.
  by rewrite (render_unreadable _ rest _ _ (Parsed <$> loading_placeholder) Hr Hbad).
Qed.

(** X14: when the feed is a non-empty array of readable entries, the gallery
    ends with one card per entry in feed order and nothing else, the cache
    holds the feed, nothing is logged and the control is enabled again. *)
Theorem X14_successful_fetch_fills_gallery (status : nat)
    (entries : list value) (items : list Item) (p : page) :
  readable entries items -> entries <> [] ->
  let p' := click_handler (Responded true status (Some (VArray entries))) p in
  gallery p' = cards_of items /\
  fullData p' = Some (VArray entries) /\
  console p' = console p /\
  disabled p' = false /\ textContent p' = "Fetch Space Images".
Proof.
  intros Hr Hne p'. subst p'. rewrite click_handler_data.
  by rewrite (render_readable _ _ (Parsed <$> loading_placeholder) Hr Hne).
Qed.

(** X15: when the fetched document is not an array, or is the empty array,
    the gallery ends with the "No items found." placeholder, not with the
    error placeholder; the document is cached all the same. *)
Theorem X15_non_array_feed_shows_no_items (status : nat) (data : value)
    (p : page) :
  isArray data = false \/ data = VArray [] ->
  let p' := click_handler (Responded true status (Some data)) p in
  gallery p' = Parsed <$> no_items_placeholder /\
  fullData p' = Some data /\
  console p' = console p.
Proof.
  intros H p'. subst p'. rewrite click_handler_data.
  by rewrite (render_no_items _ (Parsed <$> loading_placeholder) H).
Qed.

(** X16: whatever the exchange and whatever the page held, the gallery a
    settled activation leaves is the error placeholder, or the "No items
    found." placeholder, or a non-empty run of cards and nothing else: the
    loading placeholder and the earlier content never remain. *)
Theorem X16_settled_gallery (net : exchange) (p : page) :
  let g := gallery (click_handler net p) in
  g = Parsed <$> error_placeholder \/
  g = Parsed <$> no_items_placeholder \/
  (g <> [] /\ Forall (fun c => is_card c = true) g).
Proof.
  intros g. subst g.
  destruct net as [|[|] status [data|]]; try by left.
  rewrite click_handler_data. unfold renderGallery.
  destruct (negb (isArray data) || (length (elements data) =? 0)%nat) eqn:E.
  { right. by left. }
  destruct (forEach (elements data) []) as [g [u|e]] eqn:Hf; [|by left].
  right; right. destruct (forEach_normal _ _ _ _ Hf) as (items & Hr & ->).
  cbn. split; [|apply cards_of_all_cards].
  apply orb_false_iff in E as [_ E]. apply Nat.eqb_neq in E.
  pose proof (Forall2_length _ _ _ Hr) as Hlen.
  destruct items; [cbn in Hlen; lia | done].
Qed.

End FeedMore.

(** ** Card and modal side by side *)

Section CardAndModal.

Import Gallery GalleryView Modal ModalView ModalFacts Page.

(** X17: when the texts a card splices are inert, the card and the modal
    opened from it print the same title ("Untitled" when the Record has
    none) and the same date. *)
Theorem X17_card_and_modal_agree_on_texts (item : Item) (d : doc) :
  inert_fields item = true ->
  card_title (make_card item)
  = (titleEl <$> _apodModal (openApodModal item d)) /\
  card_date (make_card item)
  = (dateEl <$> _apodModal (openApodModal item d)) /\
  card_title (make_card item) = Some (or_else (item !! "title") "Untitled").
Proof.
  intros Hin. destruct (GalleryFacts.card_dom _ Hin) as (tree & m & Hp & He & _).
  unfold card_title, card_date. rewrite Hp, He.
  rewrite GalleryFacts.textContent_title, GalleryFacts.textContent_date.
  unfold openApodModal. by destruct (place_media _ _ _) as [[src alt] kids].
Qed.

(** X18: a Record with no media_type (or an empty one) is rendered with the
    image template and its url in the gallery (an [img] with that source
    when the spliced texts are inert), yet the modal opened from that card
    shows "Media not available." and no picture. *)
Theorem X18_untyped_record_has_no_modal_media (item : Item) (d : doc) :
  truthy (item !! "media_type") = false ->
  innerHTML (make_card item)
  = image_card (or_else (item !! "url") "")
               (or_else (item !! "title") "Untitled")
               (or_else (item !! "date") "") /\
  media (openApodModal item d) = [P "Media not available."] /\
  picture (openApodModal item d) = None /\
  (inert_fields item = true ->
   card_variant (make_card item) = Some Image /\
   card_img_src (make_card item) = Some (or_else (item !! "url") "")).
Proof.
  intros H.
  assert (or_else (item !! "media_type") "image" = "image") as Hm
    by (by apply truthy_false_or_else).
  assert (forall t, t <> "" -> media_type_is item t = false) as Hno.
  { intros t Ht. apply bool_decide_eq_false. intros E. rewrite E in H.
    by destruct t. }
  split; [by apply GalleryFacts.make_card_image|].
  split; [|split].
  - rewrite media_open. by rewrite (Hno "image"), (Hno "video").
  - unfold picture. rewrite media_open.
    by rewrite (Hno "image"), (Hno "video").
  - by apply GalleryFacts.image_card_views, GalleryFacts.make_card_image.
Qed.

End CardAndModal.

(** ** The further properties at sample inputs *)

Section MoreInstances.

Import JsString Resolver Gallery GalleryView Modal ModalView Page Feed Samples.

Lemma X1_witness :
  extract_id "https://www.youtube.com/embed/abc123?rel=0" "/embed/" "?"
  = Normal "abc123" /\
  includes "abc123" "?" = false.
Proof.
  split; [by vm_compute|].
  pose proof (X1_identifier_has_no_delimiter
                "https://www.youtube.com/embed/abc123?rel=0" "abc123")
    as (H & _ & _).
  apply H. by vm_compute.
Defined.

Lemma X2_witness :
  includes "abc123" "?" = false /\
  includes ("abc123" +:+ "?" +:+ "rel=0") "/embed/" = false /\
  resolve ("https://www.youtube.com/embed/" +:+ "abc123" +:+ "?" +:+ "rel=0") ""
  = (watch_of "abc123", keep_or "" (thumb_of "abc123")).
Proof.
  split; [by vm_compute|]. split; [by vm_compute|].
  pose proof (X2_embed_address_round_trip "abc123" "rel=0" "") as H.
  destruct H as [_ H]; [by vm_compute|]. apply H. by vm_compute.
Defined.

Lemma X3_witness :
  includes "abc123" "&" = false /\
  includes ("abc123" +:+ "&" +:+ "t=42s") "/embed/" = false /\
  includes ("abc123" +:+ "&" +:+ "t=42s") "watch?v=" = false /\
  resolve (watch_of ("abc123" +:+ "&" +:+ "t=42s")) ""
  = (watch_of ("abc123" +:+ "&" +:+ "t=42s"), keep_or "" (thumb_of "abc123")).
Proof.
  split; [by vm_compute|]. split; [by vm_compute|]. split; [by vm_compute|].
  pose proof (X3_watch_address_is_kept "abc123" "t=42s" "") as H.
  destruct H as [_ H]; [by vm_compute|]. apply H; by vm_compute.
Defined.

Lemma X4_witness :
  includes "abc123" "?" = false /\
  includes ("https://youtu.be/" +:+ "abc123") "/embed/" = false /\
  includes ("https://youtu.be/" +:+ "abc123") "watch?v=" = false /\
  includes "abc123" "youtu.be/" = false /\
  resolve ("https://youtu.be/" +:+ "abc123") "http://x/thumb.jpg"
  = (watch_of "abc123", keep_or "http://x/thumb.jpg" (thumb_of "abc123")).
Proof.
  split; [by vm_compute|]. split; [by vm_compute|].
  split; [by vm_compute|]. split; [by vm_compute|].
  pose proof (X4_short_link_round_trip "abc123" "" "http://x/thumb.jpg") as H.
  destruct H as [H _]; [by vm_compute|]. apply H; by vm_compute.
Defined.

Lemma sample_readable :
  readable [VObject m1; VNumber "7"; VObject embed_video] [m1; ∅; embed_video].
Proof. repeat constructor. Defined.

Lemma X5_witness :
  readable [VObject m1; VNumber "7"; VObject embed_video] [m1; ∅; embed_video] /\
  [VObject m1; VNumber "7"; VObject embed_video] <> [] /\
  renderGallery (VArray [VObject m1; VNumber "7"; VObject embed_video])
                (Parsed <$> no_items_placeholder)
  = (cards_of [m1; ∅; embed_video], Normal tt).
Proof.
  split; [exact sample_readable|]. split; [discriminate|].
  apply (X5_one_card_per_entry _ _ _ sample_readable). discriminate.
Defined.

Lemma X6_witness :
  readable [VObject m1; VNumber "7"; VObject embed_video] [m1; ∅; embed_video] /\
  renderGallery
    (VArray ([VObject m1; VNumber "7"; VObject embed_video] ++
             VNull :: [VObject audio])) []
  = (cards_of [m1; ∅; embed_video], Throw TypeError).
Proof.
  split; [exact sample_readable|].
  apply (X6_unreadable_entry_stops_rendering _ _ _ VNull _ sample_readable).
  by left.
Defined.

Lemma X7_witness :
  inert_fields {[ "media_type" := "video" ]} = true /\
  [("href", "#"); ("target", "_blank"); ("rel", "noopener noreferrer");
   ("style", watch_link_style)]
  ∈ card_anchors (make_card {[ "media_type" := "video" ]}) /\
  attr "target" [("href", "#"); ("target", "_blank");
                 ("rel", "noopener noreferrer"); ("style", watch_link_style)]
  = Some "_blank".
Proof.
  assert ([("href", "#"); ("target", "_blank"); ("rel", "noopener noreferrer");
           ("style", watch_link_style)]
          ∈ card_anchors (make_card {[ "media_type" := "video" ]})) as H.
  { vm_compute. apply list_elem_of_here. }
  split; [by vm_compute|]. split; [exact H|].
  destruct (X7_card_links_are_safe {[ "media_type" := "video" ]}
              [("href", "#"); ("target", "_blank");
               ("rel", "noopener noreferrer"); ("style", watch_link_style)])
    as [_ Hs]; [by vm_compute|].
  by destruct (Hs H) as (Ht & _).
Defined.

Lemma X8_witness :
  let d := run [CardClick m1; Surface (KeyDown "Escape"); CardKey " " embed_video]
               (initial (Some card0)) in
  (exists m, _apodModal d = Some m) /\
  visible d = keydown_listener d /\
  forall m, _apodModal d = Some m -> 1 <= length (mediaWrap m) <= 3.
Proof.
  intros d. split; [by eexists|].
  pose proof (X8_session_invariant
                [CardClick m1; Surface (KeyDown "Escape");
                 CardKey " " embed_video] (Some card0)) as [H H'].
  split; [exact H|]. intros m Hm. by destruct (H' m Hm) as (_ & ? & _).
Defined.

Lemma X10_witness :
  activeElement (initial None) = None /\
  activeElement (closeApodModal (openApodModal m1 (initial None)))
  = Some closeBtn.
Proof.
  split; [reflexivity|].
  apply (X10_focus_stays_on_close_button m1 (initial None)). by left.
Defined.

Lemma X11_witness :
  media_type_is embed_video "video" && truthy (embed_video !! "url") = true /\
  is_Some (watch_link (openApodModal embed_video (initial None))).
Proof.
  split; [by vm_compute|].
  pose proof (X11_modal_links embed_video (initial None)) as [H _].
  apply H. by vm_compute.
Defined.

Lemma X12_witness :
  (fetchApodData (Responded false 404 (Some (VArray [VObject m1])))
                 (click_pending idle)).2 = Throw (NetworkError 404) /\
  fullData (click_handler (Responded false 404 (Some (VArray [VObject m1]))) idle)
  = fullData idle /\
  console (click_handler (Responded false 404 (Some (VArray [VObject m1]))) idle)
  = console idle ++ [NetworkError 404].
Proof.
  split; [reflexivity|].
  pose proof (X12_failed_fetch_keeps_cache
                (Responded false 404 (Some (VArray [VObject m1]))) idle
                (NetworkError 404)) as H.
  destruct H as (H1 & H2 & _); [reflexivity|]. by split.
Defined.

Lemma X13_witness :
  readable [VObject m1; VNumber "7"; VObject embed_video] [m1; ∅; embed_video] /\
  gallery (click_handler
             (Responded true 200
                (Some (VArray ([VObject m1; VNumber "7"; VObject embed_video] ++
                               VNull :: [VObject audio])))) idle)
  = Parsed <$> error_placeholder.
Proof.
  split; [exact sample_readable|].
  pose proof (X13_unreadable_entry_shows_error 200 _ [VObject audio] _ VNull idle
                sample_readable) as H.
  destruct H as (H & _); [by left|]. exact H.
Defined.

Lemma X14_witness :
  readable [VObject m1; VNumber "7"; VObject embed_video] [m1; ∅; embed_video] /\
  [VObject m1; VNumber "7"; VObject embed_video] <> [] /\
  gallery (click_handler
             (Responded true 200
                (Some (VArray [VObject m1; VNumber "7"; VObject embed_video])))
             idle)
  = cards_of [m1; ∅; embed_video].
Proof.
  split; [exact sample_readable|]. split; [discriminate|].
  pose proof (X14_successful_fetch_fills_gallery 200 _ _ idle sample_readable) as H.
  destruct H as (H & _); [discriminate|]. exact H.
Defined.

Lemma X15_witness :
  isArray (VObject m1) = false /\
  gallery (click_handler (Responded true 200 (Some (VObject m1))) idle)
  = Parsed <$> no_items_placeholder.
Proof.
  split; [reflexivity|].
  pose proof (X15_non_array_feed_shows_no_items 200 (VObject m1) idle) as H.
  destruct H as (H & _); [by left|]. exact H.
Defined.

Lemma X17_witness :
  inert_fields m1 = true /\
  card_title (make_card m1) = Some "M1" /\
  (titleEl <$> _apodModal (openApodModal m1 (initial None))) = Some "M1".
Proof.
  split; [by vm_compute|].
  destruct (X17_card_and_modal_agree_on_texts m1 (initial None))
    as (H & _ & H'); [by vm_compute|].
  split; [rewrite H'; by vm_compute | rewrite <- H, H'; by vm_compute].
Defined.

Lemma X18_witness :
  truthy (untyped !! "media_type") = false /\
  inert_fields untyped = true /\
  card_img_src (make_card untyped) = Some (or_else (untyped !! "url") "") /\
  media (openApodModal untyped (initial None)) = [P "Media not available."].
Proof.
  split; [by vm_compute|]. split; [by vm_compute|].
  destruct (X18_untyped_record_has_no_modal_media untyped (initial None))
    as (_ & H & _ & H'); [by vm_compute|].
  destruct H' as [_ H']; [by vm_compute|]. by split.
Defined.

End MoreInstances.
